(** * Zero-of-Functions solver: the numerical-methods module [methods.py]

    A shallow embedding of [methods.py] (the expression evaluator
    [parse_function] and the six root-finding routines) and the properties
    of its specification.

    Conventions of the embedding.
    - Python [float] values are an abstract carrier [F] with the operations
      the module uses (class [PyFloat]); nothing is assumed about them, so
      the structural results hold for IEEE doubles as well.  Exact rational
      arithmetic ([Q]) is the instance used to run the code and to state
      what depends on the order of the reals; binary64 floats are a second
      instance, used to show where rounding and overflow part from it.
    - A Python call either returns, raises, or leaves the part of the
      language interpreted here ([Unmodelled]); see [result].
    - The solvers run in a writer-and-error monad [M] that logs every call
      of a user supplied callable together with its argument. *)

From Stdlib Require Import ZArith QArith Qabs Qminmax Lia Lqa String Ascii List.
From Stdlib Require Import PrimFloat Uint63.
From stdpp Require Import base option list gmap strings.

Set Implicit Arguments.
Set Warnings "-register-all".
Open Scope Z_scope.

(* ================================================================= *)
(** ** Numbers *)

(** The float operations [methods.py] applies to its operands.  [fdiv] is
    the bare quotient: Python's [ZeroDivisionError] test is written out
    where the source divides by something that is not a literal. *)
Class PyFloat (F : Type) := {
  fadd : F -> F -> F;
  fsub : F -> F -> F;
  fmul : F -> F -> F;
  fdiv : F -> F -> F;
  fneg : F -> F;
  fabs : F -> F;
  flt : F -> F -> bool;    (* x < y  *)
  fge : F -> F -> bool;    (* x >= y *)
  feq : F -> F -> bool;    (* x == y *)
  of_int : Z -> F          (* float(n) for an int literal n *)
}.

(* ================================================================= *)
(** ** Exceptions and outcomes *)

Section Outcomes.
Context {F : Type}.

(** The exceptions that can leave [methods.py].  [FunctionParserError]
    (a subclass of [ValueError] in the source) keeps the parts of its
    formatted message as data. *)
Inductive exn : Type :=
| SyntaxError
| NameError (name : string)
| TypeError (msg : string)
| ZeroDivisionError
| ValueError (msg : string)
| UnboundLocalError (var : string)
| FunctionParserError (message : fpe_message)
with fpe_message : Type :=
| ExpressionEmpty                         (* "Expression cannot be empty." *)
| InvalidExpression (cause : exn)         (* f"Invalid expression: {exc.msg}" from exc *)
| ErrorEvaluatingAt (x : F) (cause : exn) (* f"Error evaluating expression at x={x}: {exc}" from exc *)
| ComplexResult.                          (* "Expression evaluated to a complex number; real value expected." *)

(** Outcome of a Python computation. *)
Inductive result (A : Type) : Type :=
| Ok (a : A)
| Raise (e : exn)
| Unmodelled.

End Outcomes.

Arguments exn : clear implicits.
Arguments fpe_message : clear implicits.
Arguments result : clear implicits.
Arguments Ok {F A} a.
Arguments Raise {F A} e.
Arguments Unmodelled {F A}.

(* ================================================================= *)
(** ** The monad of the solvers *)

Section Monad.
Context {F : Type}.

(** [AllowedFunction = Callable[[float], float]]. *)
Definition AllowedFunction : Type := F -> result F F.

(** One entry per call of a callable: the callable and its argument. *)
Definition call_log : Type := list (AllowedFunction * F).

Definition M (A : Type) : Type := (call_log * result F A)%type.

Definition ret {A} (a : A) : M A := ([], Ok a).

Definition raise {A} (e : exn F) : M A := ([], Raise e).

Definition bind {A B} (m : M A) (k : A -> M B) : M B :=
  match m with
  | (log, Ok a) => let '(log', r) := k a in (log ++ log', r)
  | (log, Raise e) => (log, Raise e)
  | (log, Unmodelled) => (log, Unmodelled)
  end.

(** [g(x)] for a callable [g]. *)
Definition call (g : AllowedFunction) (x : F) : M F := ([(g, x)], g x).

Definition calls {A} (m : M A) : call_log := fst m.
Definition outcome {A} (m : M A) : result F A := snd m.

(** Reading a local variable that an earlier statement may not have bound. *)
Definition local {A} (var : string) (v : option A) : M A :=
  match v with
  | Some a => ret a
  | None => raise (UnboundLocalError var)
  end.

(** What one execution of a loop body does to the loop. *)
Inductive control (S R : Type) : Type :=
| Continue (s : S)
| Return (r : R).

(** [for iteration in range(start, start + n): body], where the body may
    return from the enclosing function. *)
Fixpoint for_range {S R} (body : Z -> S -> M (control S R))
    (n : nat) (iteration : Z) (s : S) : M (control S R) :=
  match n with
  | O => ret (Continue R s)
  | Datatypes.S n' =>
      bind (body iteration s) (fun c =>
        match c with
        | Return _ r => ret (Return S r)
        | Continue _ s' => for_range body n' (iteration + 1) s'
        end)
  end.

End Monad.

Arguments AllowedFunction : clear implicits.
Arguments call_log : clear implicits.
Arguments M : clear implicits.
Arguments Continue {S R} s.
Arguments Return {S R} r.

Notation "x <- m ;; k" := (bind m (fun x => k))
  (at level 100, m at level 99, right associativity).

(* ================================================================= *)
(** ** Results of the solvers *)

Section Solvers.
Context {F : Type} `{PyFloat F}.

(** The dictionary [_build_iteration] returns: its four keys. *)
Record Iteration : Type := build_iteration {
  it_iteration : Z;
  it_xn : F;
  it_fxn : F;
  it_error : F
}.

Record MethodResult : Type := mkMethodResult {
  iterations : list Iteration;
  root : F;
  error : F;
  iterations_used : Z
}.

(** [x / y] for two floats: Python raises when the divisor compares equal
    to zero. *)
Definition py_div (x y : F) : M F F :=
  if feq y (of_int 0) then raise ZeroDivisionError else ret (fdiv x y).

(* ----------------------------------------------------------------- *)
(** *** bisection *)

(** The local variables of [bisection] that live across iterations.  [c]
    and [error] are first assigned inside the loop. *)
Record bisection_locals : Type := {
  bi_a : F; bi_b : F; bi_fa : F; bi_fb : F;
  bi_iterations : list Iteration;
  bi_c : option F;
  bi_error : option F
}.

Definition bisection_start (a b fa fb : F) : bisection_locals :=
  {| bi_a := a; bi_b := b; bi_fa := fa; bi_fb := fb;
     bi_iterations := []; bi_c := None; bi_error := None |}.

Definition bisection_body (func : AllowedFunction F) (tol : F)
    (iteration : Z) (st : bisection_locals)
  : M F (control bisection_locals MethodResult) :=
  let a := bi_a st in
  let b := bi_b st in
  let fa := bi_fa st in
  let c := fdiv (fadd a b) (of_int 2) in
  fc <- call func c ;;
  let error := fdiv (fabs (fsub b a)) (of_int 2) in
  let iterations := bi_iterations st ++ [build_iteration iteration c fc error] in
  if flt error tol || flt (fabs fc) tol then
    ret (Return (mkMethodResult iterations c error iteration))
  else if flt (fmul fa fc) (of_int 0) then
    ret (Continue {| bi_a := a; bi_b := c; bi_fa := fa; bi_fb := fc;
                     bi_iterations := iterations;
                     bi_c := Some c; bi_error := Some error |})
  else
    ret (Continue {| bi_a := c; bi_b := b; bi_fa := fc; bi_fb := bi_fb st;
                     bi_iterations := iterations;
                     bi_c := Some c; bi_error := Some error |}).

Definition bisection (func : AllowedFunction F) (a b tol : F) (max_iter : Z)
  : M F MethodResult :=
  fa <- call func a ;;
  fb <- call func b ;;
  if fge (fmul fa fb) (of_int 0) then
    raise (ValueError "Bisection requires f(a) and f(b) to have opposite signs.")
  else
    out <- for_range (bisection_body func tol) (Z.to_nat max_iter) 1
             (bisection_start a b fa fb) ;;
    match out with
    | Return r => ret r
    | Continue st =>
        c <- local "c" (bi_c st) ;;
        error <- local "error" (bi_error st) ;;
        ret (mkMethodResult (bi_iterations st) c error max_iter)
    end.

(* ----------------------------------------------------------------- *)
(** *** regula_falsi *)

(** [c] is bound before the loop ([c = a]); [error] is not. *)
Record regula_falsi_locals : Type := {
  rf_a : F; rf_b : F; rf_fa : F; rf_fb : F;
  rf_iterations : list Iteration;
  rf_c : F;
  rf_error : option F
}.

Definition regula_falsi_start (a b fa fb : F) : regula_falsi_locals :=
  {| rf_a := a; rf_b := b; rf_fa := fa; rf_fb := fb;
     rf_iterations := []; rf_c := a; rf_error := None |}.

Definition regula_falsi_body (func : AllowedFunction F) (tol : F)
    (iteration : Z) (st : regula_falsi_locals)
  : M F (control regula_falsi_locals MethodResult) :=
  let a := rf_a st in
  let b := rf_b st in
  let fa := rf_fa st in
  let fb := rf_fb st in
  c <- py_div (fsub (fmul a fb) (fmul b fa)) (fsub fb fa) ;;
  fc <- call func c ;;
  let error := fabs fc in
  let iterations := rf_iterations st ++ [build_iteration iteration c fc error] in
  if flt (fabs fc) tol || flt error tol then
    ret (Return (mkMethodResult iterations c error iteration))
  else if flt (fmul fa fc) (of_int 0) then
    ret (Continue {| rf_a := a; rf_b := c; rf_fa := fa; rf_fb := fc;
                     rf_iterations := iterations;
                     rf_c := c; rf_error := Some error |})
  else
    ret (Continue {| rf_a := c; rf_b := b; rf_fa := fc; rf_fb := fb;
                     rf_iterations := iterations;
                     rf_c := c; rf_error := Some error |}).

Definition regula_falsi (func : AllowedFunction F) (a b tol : F) (max_iter : Z)
  : M F MethodResult :=
  fa <- call func a ;;
  fb <- call func b ;;
  if fge (fmul fa fb) (of_int 0) then
    raise (ValueError "Regula Falsi requires f(a) and f(b) to have opposite signs.")
  else
    out <- for_range (regula_falsi_body func tol) (Z.to_nat max_iter) 1
             (regula_falsi_start a b fa fb) ;;
    match out with
    | Return r => ret r
    | Continue st =>
        error <- local "error" (rf_error st) ;;
        ret (mkMethodResult (rf_iterations st) (rf_c st) error max_iter)
    end.

(* ----------------------------------------------------------------- *)
(** *** secant *)

Record secant_locals : Type := {
  se_prev : F; se_curr : F;
  se_iterations : list Iteration;
  se_error : option F
}.

Definition secant_start (x0 x1 : F) : secant_locals :=
  {| se_prev := x0; se_curr := x1; se_iterations := []; se_error := None |}.

Definition secant_body (func : AllowedFunction F) (tol : F)
    (iteration : Z) (st : secant_locals)
  : M F (control secant_locals MethodResult) :=
  let prev := se_prev st in
  let curr := se_curr st in
  f_prev <- call func prev ;;
  f_curr <- call func curr ;;
  let denominator := fsub f_curr f_prev in
  if feq denominator (of_int 0) then
    raise (ValueError "Secant method encountered zero denominator; choose different initial guesses.")
  else
    q <- py_div (fmul f_curr (fsub curr prev)) denominator ;;
    let next_x := fsub curr q in
    let error := fabs (fsub next_x curr) in
    f_next <- call func next_x ;;
    let iterations := se_iterations st ++ [build_iteration iteration next_x f_next error] in
    if flt error tol then
      ret (Return (mkMethodResult iterations next_x error iteration))
    else
      f_next' <- call func next_x ;;
      if flt (fabs f_next') tol then
        ret (Return (mkMethodResult iterations next_x error iteration))
      else
        ret (Continue {| se_prev := curr; se_curr := next_x;
                         se_iterations := iterations; se_error := Some error |}).

Definition secant (func : AllowedFunction F) (x0 x1 tol : F) (max_iter : Z)
  : M F MethodResult :=
  out <- for_range (secant_body func tol) (Z.to_nat max_iter) 1 (secant_start x0 x1) ;;
  match out with
  | Return r => ret r
  | Continue st =>
      error <- local "error" (se_error st) ;;
      ret (mkMethodResult (se_iterations st) (se_curr st) error max_iter)
  end.

(* ----------------------------------------------------------------- *)
(** *** newton_raphson, fixed_point, modified_secant *)

(** The three remaining loops carry one estimate, [current]. *)
Record current_locals : Type := {
  cu_current : F;
  cu_iterations : list Iteration;
  cu_error : option F
}.

Definition current_start (x0 : F) : current_locals :=
  {| cu_current := x0; cu_iterations := []; cu_error := None |}.

Definition newton_raphson_body (func derivative : AllowedFunction F) (tol : F)
    (iteration : Z) (st : current_locals)
  : M F (control current_locals MethodResult) :=
  let current := cu_current st in
  f_val <- call func current ;;
  derivative_val <- call derivative current ;;
  if feq derivative_val (of_int 0) then
    raise (ValueError "Derivative is zero; Newton-Raphson cannot proceed.")
  else
    q <- py_div f_val derivative_val ;;
    let next_x := fsub current q in
    let error := fabs (fsub next_x current) in
    f_next <- call func next_x ;;
    let iterations := cu_iterations st ++ [build_iteration iteration next_x f_next error] in
    if flt error tol then
      ret (Return (mkMethodResult iterations next_x error iteration))
    else
      f_next' <- call func next_x ;;
      if flt (fabs f_next') tol then
        ret (Return (mkMethodResult iterations next_x error iteration))
      else
        ret (Continue {| cu_current := next_x;
                         cu_iterations := iterations; cu_error := Some error |}).

Definition finish_current (max_iter : Z)
    (out : control current_locals MethodResult) : M F MethodResult :=
  match out with
  | Return r => ret r
  | Continue st =>
      error <- local "error" (cu_error st) ;;
      ret (mkMethodResult (cu_iterations st) (cu_current st) error max_iter)
  end.

Definition newton_raphson (func derivative : AllowedFunction F) (x0 tol : F)
    (max_iter : Z) : M F MethodResult :=
  out <- for_range (newton_raphson_body func derivative tol) (Z.to_nat max_iter) 1
           (current_start x0) ;;
  finish_current max_iter out.

Definition fixed_point_body (g_func : AllowedFunction F) (tol : F)
    (iteration : Z) (st : current_locals)
  : M F (control current_locals MethodResult) :=
  let current := cu_current st in
  next_x <- call g_func current ;;
  let error := fabs (fsub next_x current) in
  let f_val := fsub next_x current in
  let iterations := cu_iterations st ++ [build_iteration iteration next_x f_val error] in
  if flt error tol then
    ret (Return (mkMethodResult iterations next_x error iteration))
  else
    ret (Continue {| cu_current := next_x;
                     cu_iterations := iterations; cu_error := Some error |}).

Definition fixed_point (g_func : AllowedFunction F) (x0 tol : F) (max_iter : Z)
  : M F MethodResult :=
  out <- for_range (fixed_point_body g_func tol) (Z.to_nat max_iter) 1
           (current_start x0) ;;
  finish_current max_iter out.

Definition modified_secant_body (func : AllowedFunction F) (delta tol : F)
    (iteration : Z) (st : current_locals)
  : M F (control current_locals MethodResult) :=
  let current := cu_current st in
  f_current <- call func current ;;
  f_shifted <- call func (fadd current (fmul delta current)) ;;
  let denominator := fsub f_shifted f_current in
  if feq denominator (of_int 0) then
    raise (ValueError "Modified secant encountered zero denominator; adjust delta or initial guess.")
  else
    q <- py_div (fmul (fmul delta current) f_current) denominator ;;
    let next_x := fsub current q in
    let error := fabs (fsub next_x current) in
    f_next <- call func next_x ;;
    let iterations := cu_iterations st ++ [build_iteration iteration next_x f_next error] in
    if flt error tol then
      ret (Return (mkMethodResult iterations next_x error iteration))
    else
      f_next' <- call func next_x ;;
      if flt (fabs f_next') tol then
        ret (Return (mkMethodResult iterations next_x error iteration))
      else
        ret (Continue {| cu_current := next_x;
                         cu_iterations := iterations; cu_error := Some error |}).

Definition modified_secant (func : AllowedFunction F) (x0 delta tol : F)
    (max_iter : Z) : M F MethodResult :=
  if feq delta (of_int 0) then
    raise (ValueError "Delta must be non-zero for the modified secant method.")
  else
    out <- for_range (modified_secant_body func delta tol) (Z.to_nat max_iter) 1
             (current_start x0) ;;
    finish_current max_iter out.

(* ----------------------------------------------------------------- *)
(** *** A solve call *)

(** The six entry points with their arguments, as the command line and the
    web form dispatch on the chosen method. *)
Inductive solve_call : Type :=
| Bisection (func : AllowedFunction F) (a b tol : F) (max_iter : Z)
| RegulaFalsi (func : AllowedFunction F) (a b tol : F) (max_iter : Z)
| Secant (func : AllowedFunction F) (x0 x1 tol : F) (max_iter : Z)
| NewtonRaphson (func derivative : AllowedFunction F) (x0 tol : F) (max_iter : Z)
| FixedPoint (g_func : AllowedFunction F) (x0 tol : F) (max_iter : Z)
| ModifiedSecant (func : AllowedFunction F) (x0 delta tol : F) (max_iter : Z).

Definition solve (c : solve_call) : M F MethodResult :=
  match c with
  | Bisection func a b tol max_iter => bisection func a b tol max_iter
  | RegulaFalsi func a b tol max_iter => regula_falsi func a b tol max_iter
  | Secant func x0 x1 tol max_iter => secant func x0 x1 tol max_iter
  | NewtonRaphson func derivative x0 tol max_iter =>
      newton_raphson func derivative x0 tol max_iter
  | FixedPoint g_func x0 tol max_iter => fixed_point g_func x0 tol max_iter
  | ModifiedSecant func x0 delta tol max_iter =>
      modified_secant func x0 delta tol max_iter
  end.

Definition max_iter_of (c : solve_call) : Z :=
  match c with
  | Bisection _ _ _ _ n | RegulaFalsi _ _ _ _ n | Secant _ _ _ _ n
  | NewtonRaphson _ _ _ _ n | FixedPoint _ _ _ n | ModifiedSecant _ _ _ _ n => n
  end.

End Solvers.

Arguments Iteration : clear implicits.
Arguments MethodResult : clear implicits.
Arguments bisection_locals : clear implicits.
Arguments regula_falsi_locals : clear implicits.
Arguments secant_locals : clear implicits.
Arguments current_locals : clear implicits.
Arguments solve_call : clear implicits.

(* ================================================================= *)
(** ** Exact arithmetic *)

(** Rational numbers as the carrier: every operation is exact, there is no
    rounding, overflow, infinity or NaN. *)
#[export] Instance Q_PyFloat : PyFloat Q := {|
  fadd := Qplus;
  fsub := Qminus;
  fmul := Qmult;
  fdiv := Qdiv;
  fneg := Qopp;
  fabs := Qabs;
  flt := fun x y => negb (Qle_bool y x);
  fge := fun x y => Qle_bool y x;
  feq := Qeq_bool;
  of_int := inject_Z
|}.

(** A callable that is defined everywhere. *)
Definition total {F : Type} (g : F -> F) : AllowedFunction F := fun x => Ok (g x).

(* ================================================================= *)
(** ** IEEE doubles *)

(** [float(n)] for an int literal. *)
Definition float_of_int (n : Z) : float :=
  if n <? 0 then PrimFloat.opp (PrimFloat.of_uint63 (Uint63.of_Z (- n)))
  else PrimFloat.of_uint63 (Uint63.of_Z n).

(** Python's [float] is the binary64 format of the kernel's floats:
    addition, subtraction, multiplication and division round to nearest
    and overflow to an infinity without raising; comparisons with a NaN
    are false. *)
#[export] Instance float_PyFloat : PyFloat float := {|
  fadd := PrimFloat.add;
  fsub := PrimFloat.sub;
  fmul := PrimFloat.mul;
  fdiv := PrimFloat.div;
  fneg := PrimFloat.opp;
  fabs := PrimFloat.abs;
  flt := PrimFloat.ltb;
  fge := fun x y => PrimFloat.leb y x;
  feq := PrimFloat.eqb;
  of_int := float_of_int
|}.

(* ================================================================= *)
(** ** Python expressions *)

(** [parse_function] hands the expression to the built-ins [compile] and
    [eval].  The part of the language interpreted here: numeric and string
    literals, names, attribute references, calls with positional
    arguments, tuples, unary [+ -] and binary [+ - * / **].  Whatever lies
    outside it has the outcome [Unmodelled]. *)

Inductive constant : Type :=
| CInt (n : Z)                          (* 12 *)
| CFloat (mantissa exponent : Z)        (* 1.5e-3: mantissa * 10 ^ exponent *)
| CImag (mantissa exponent : Z)         (* 2j *)
| CStr (s : string).

Inductive unaryop : Type := UAdd | USub.

Inductive operator : Type := Add | Sub | Mult | Div | Pow.

(** The nodes of Python's [ast] module for this fragment. *)
Inductive expr : Type :=
| Constant (value : constant)
| Name (id : string)
| Attribute (value : expr) (attr : string)
| Call (func : expr) (args : list expr)
| Tuple (elts : list expr)
| UnaryOp (op : unaryop) (operand : expr)
| BinOp (left : expr) (op : operator) (right : expr).

(** Python objects.  [VOther] is an object this development does not
    interpret (a dict, a non-finite float in exact arithmetic, ...). *)
Inductive value (F : Type) : Type :=
| VInt (n : Z)
| VFloat (x : F)
| VComplex (re im : F)
| VStr (s : string)
| VTuple (elts : list (value F))
| VBuiltin (name : string)
| VOther (what : string).

Arguments VInt {F} n.
Arguments VFloat {F} x.
Arguments VComplex {F} re im.
Arguments VStr {F} s.
Arguments VTuple {F} elts.
Arguments VBuiltin {F} name.
Arguments VOther {F} what.

(** What the evaluator needs from the [math] module and the float type
    beyond [PyFloat]. *)
Class PyMath (F : Type) := {
  of_decimal : Z -> Z -> F;                       (* the float of a literal *)
  float_pow : F -> F -> result F (value F);       (* x ** y on two floats *)
  math_getattr : string -> value F;               (* getattr(math, name) *)
  math_call : string -> list (value F) -> result F (value F)
}.

(** [dir(math)] (CPython 3.12). *)
Definition dir_math : list string :=
  [ "__doc__"; "__loader__"; "__name__"; "__package__"; "__spec__";
    "acos"; "acosh"; "asin"; "asinh"; "atan"; "atan2"; "atanh"; "cbrt";
    "ceil"; "comb"; "copysign"; "cos"; "cosh"; "degrees"; "dist"; "e";
    "erf"; "erfc"; "exp"; "exp2"; "expm1"; "fabs"; "factorial"; "floor";
    "fmod"; "frexp"; "fsum"; "gamma"; "gcd"; "hypot"; "inf"; "isclose";
    "isfinite"; "isinf"; "isnan"; "isqrt"; "lcm"; "ldexp"; "lgamma"; "log";
    "log10"; "log1p"; "log2"; "modf"; "nan"; "nextafter"; "perm"; "pi";
    "pow"; "prod"; "radians"; "remainder"; "sin"; "sinh"; "sqrt"; "sumprod";
    "tan"; "tanh"; "tau"; "trunc"; "ulp" ]%string.

Section ResultMonad.
Context {F : Type}.

Definition rbind {A B} (r : result F A) (k : A -> result F B) : result F B :=
  match r with
  | Ok a => k a
  | Raise e => Raise e
  | Unmodelled => Unmodelled
  end.

End ResultMonad.

Notation "x <~ r ;; k" := (rbind r (fun x => k))
  (at level 100, r at level 99, right associativity).

Section Evaluator.
Context {F : Type} `{PyFloat F} `{PyMath F}.

Definition value_of_constant (c : constant) : value F :=
  match c with
  | CInt n => VInt n
  | CFloat m e => VFloat (of_decimal m e)
  | CImag m e => VComplex (of_int 0) (of_decimal m e)
  | CStr s => VStr s
  end.

(** [LOAD_NAME]: locals, then globals, then the built-ins. *)
Definition load_name (builtins globals locals : gmap string (value F))
    (id : string) : result F (value F) :=
  match locals !! id with
  | Some v => Ok v
  | None =>
      match globals !! id with
      | Some v => Ok v
      | None =>
          match builtins !! id with
          | Some v => Ok v
          | None => Raise (NameError id)
          end
      end
  end.

(** Attribute references: the real and imaginary part of a number. *)
Definition py_getattr (obj : value F) (attr : string) : result F (value F) :=
  match obj with
  | VInt n =>
      if String.eqb attr "real" then Ok (VInt n)
      else if String.eqb attr "imag" then Ok (VInt 0)
      else Unmodelled
  | VFloat x =>
      if String.eqb attr "real" then Ok (VFloat x)
      else if String.eqb attr "imag" then Ok (VFloat (of_int 0))
      else Unmodelled
  | VComplex re im =>
      if String.eqb attr "real" then Ok (VFloat re)
      else if String.eqb attr "imag" then Ok (VFloat im)
      else Unmodelled
  | _ => Unmodelled
  end.

(** The built-in [abs]. *)
Definition builtin_abs (argv : list (value F)) : result F (value F) :=
  match argv with
  | [VInt n] => Ok (VInt (Z.abs n))
  | [VFloat x] => Ok (VFloat (fabs x))
  | [VComplex _ _] => Unmodelled
  | [VOther _] => Unmodelled
  | [_] => Raise (TypeError "bad operand type for abs()")
  | _ => Raise (TypeError "abs() takes exactly one argument")
  end.

Definition py_call (callee : value F) (argv : list (value F)) : result F (value F) :=
  match callee with
  | VBuiltin name =>
      if String.eqb name "abs" then builtin_abs argv else math_call name argv
  | VOther _ => Unmodelled
  | _ => Raise (TypeError "object is not callable")
  end.

Definition unary (op : unaryop) (v : value F) : result F (value F) :=
  match v with
  | VInt n => Ok (VInt (match op with UAdd => n | USub => - n end))
  | VFloat x => Ok (VFloat (match op with UAdd => x | USub => fneg x end))
  | VComplex re im =>
      Ok (match op with UAdd => VComplex re im | USub => VComplex (fneg re) (fneg im) end)
  | VOther _ => Unmodelled
  | _ => Raise (TypeError "bad operand type for unary operator")
  end.

Definition float_binary (op : operator) (x y : F) : result F (value F) :=
  match op with
  | Add => Ok (VFloat (fadd x y))
  | Sub => Ok (VFloat (fsub x y))
  | Mult => Ok (VFloat (fmul x y))
  | Div => if feq y (of_int 0) then Raise ZeroDivisionError else Ok (VFloat (fdiv x y))
  | Pow => float_pow x y
  end.

Definition int_binary (op : operator) (a b : Z) : result F (value F) :=
  match op with
  | Add => Ok (VInt (a + b))
  | Sub => Ok (VInt (a - b))
  | Mult => Ok (VInt (a * b))
  | Div => if b =? 0 then Raise ZeroDivisionError
           else Ok (VFloat (fdiv (of_int a) (of_int b)))
  | Pow => if 0 <=? b then Ok (VInt (a ^ b))
           else if a =? 0 then Raise ZeroDivisionError
           else float_pow (of_int a) (of_int b)
  end.

Definition complex_binary (op : operator) (a b c d : F) : result F (value F) :=
  match op with
  | Add => Ok (VComplex (fadd a c) (fadd b d))
  | Sub => Ok (VComplex (fsub a c) (fsub b d))
  | Mult => Ok (VComplex (fsub (fmul a c) (fmul b d)) (fadd (fmul a d) (fmul b c)))
  | Div | Pow => Unmodelled
  end.

Fixpoint repeat_list {A} (n : nat) (l : list A) : list A :=
  match n with
  | O => []
  | S n' => l ++ repeat_list n' l
  end.

Fixpoint repeat_string (n : nat) (s : string) : string :=
  match n with
  | O => EmptyString
  | S n' => String.append s (repeat_string n' s)
  end.

Definition binary (op : operator) (l r : value F) : result F (value F) :=
  match l, r with
  | VOther _, _ | _, VOther _ => Unmodelled
  | VInt a, VInt b => int_binary op a b
  | VInt a, VFloat y => float_binary op (of_int a) y
  | VFloat x, VInt b => float_binary op x (of_int b)
  | VFloat x, VFloat y => float_binary op x y
  | VComplex a b, VComplex c d => complex_binary op a b c d
  | VComplex a b, VFloat y => complex_binary op a b y (of_int 0)
  | VComplex a b, VInt n => complex_binary op a b (of_int n) (of_int 0)
  | VFloat x, VComplex c d => complex_binary op x (of_int 0) c d
  | VInt n, VComplex c d => complex_binary op (of_int n) (of_int 0) c d
  | VStr s, VStr t =>
      match op with
      | Add => Ok (VStr (String.append s t))
      | _ => Raise (TypeError "unsupported operand type(s)")
      end
  | VTuple s, VTuple t =>
      match op with
      | Add => Ok (VTuple (s ++ t))
      | _ => Raise (TypeError "unsupported operand type(s)")
      end
  | VStr s, VInt n | VInt n, VStr s =>
      match op with
      | Mult => Ok (VStr (repeat_string (Z.to_nat n) s))
      | _ => Raise (TypeError "unsupported operand type(s)")
      end
  | VTuple s, VInt n | VInt n, VTuple s =>
      match op with
      | Mult => Ok (VTuple (repeat_list (Z.to_nat n) s))
      | _ => Raise (TypeError "unsupported operand type(s)")
      end
  | _, _ => Raise (TypeError "unsupported operand type(s)")
  end.

(** [eval(code, globals, locals)] with [globals["__builtins__"]] given
    apart, as the namespace [builtins]. *)
Section Eval.
Variables builtins globals locals : gmap string (value F).

Fixpoint eval (e : expr) : result F (value F) :=
  match e with
  | Constant c => Ok (value_of_constant c)
  | Name id => load_name builtins globals locals id
  | Attribute v attr => obj <~ eval v ;; py_getattr obj attr
  | Call f args =>
      callee <~ eval f ;;
      argv <~ (fix eval_list (es : list expr) : result F (list (value F)) :=
                 match es with
                 | [] => Ok []
                 | e' :: es' => v <~ eval e' ;; vs <~ eval_list es' ;; Ok (v :: vs)
                 end) args ;;
      py_call callee argv
  | Tuple elts =>
      vs <~ (fix eval_list (es : list expr) : result F (list (value F)) :=
               match es with
               | [] => Ok []
               | e' :: es' => v <~ eval e' ;; vs <~ eval_list es' ;; Ok (v :: vs)
               end) elts ;;
      Ok (VTuple vs)
  | UnaryOp op operand => v <~ eval operand ;; unary op v
  | BinOp l op r => a <~ eval l ;; b <~ eval r ;; binary op a b
  end.

End Eval.

(** [isinstance(value, complex)]. *)
Definition is_complex (v : value F) : bool :=
  match v with
  | VComplex _ _ => true
  | _ => false
  end.

(** [float(value)]. *)
Definition py_float (v : value F) : result F F :=
  match v with
  | VInt n => Ok (of_int n)
  | VFloat x => Ok x
  | VStr _ => Unmodelled
  | VOther _ => Unmodelled
  | _ => Raise (TypeError "float() argument must be a string or a real number")
  end.

End Evaluator.

(* ================================================================= *)
(** ** compile(expression, "<user_function>", "eval") *)

(** Tokens of the fragment. *)
Inductive token : Type :=
| TNumber (c : constant)
| TString (s : string)
| TName (id : string)
| TLPar | TRPar | TComma | TDot
| TPlus | TMinus | TStar | TSlash | TPow.

Definition in_range (lo hi : nat) (c : ascii) : bool :=
  let n := nat_of_ascii c in (lo <=? n)%nat && (n <=? hi)%nat.

Definition is_digit (c : ascii) : bool := in_range 48 57 c.

Definition is_name_start (c : ascii) : bool :=
  in_range 65 90 c || in_range 97 122 c || in_range 95 95 c.

Definition is_name_char (c : ascii) : bool := is_name_start c || is_digit c.

(** Blanks between tokens: space and tab. *)
Definition is_blank (c : ascii) : bool := in_range 32 32 c || in_range 9 9 c.

(** The ASCII characters [str.strip()] removes. *)
Definition is_space (c : ascii) : bool :=
  in_range 9 13 c || in_range 28 32 c.

Definition is_quote (c : ascii) : bool := in_range 39 39 c || in_range 34 34 c.

(** Characters a string literal of the fragment may hold: printable ASCII
    without the backslash. *)
Definition is_plain (c : ascii) : bool := in_range 32 126 c && negb (in_range 92 92 c).

Fixpoint span (p : ascii -> bool) (s : list ascii) : list ascii * list ascii :=
  match s with
  | c :: s' => if p c then let '(a, b) := span p s' in (c :: a, b) else ([], s)
  | [] => ([], [])
  end.

Definition digits_value (ds : list ascii) : Z :=
  fold_left (fun acc c => 10 * acc + Z.of_nat (nat_of_ascii c - 48)) ds 0.

Definition keywords : list string :=
  [ "False"; "None"; "True"; "and"; "as"; "assert"; "async"; "await";
    "break"; "class"; "continue"; "def"; "del"; "elif"; "else"; "except";
    "finally"; "for"; "from"; "global"; "if"; "import"; "in"; "is";
    "lambda"; "nonlocal"; "not"; "or"; "pass"; "raise"; "return"; "try";
    "while"; "with"; "yield" ]%string.

Definition is_keyword (s : string) : bool := existsb (String.eqb s) keywords.

Definition starts_with (p : ascii -> bool) (s : list ascii) : bool :=
  match s with
  | c :: _ => p c
  | [] => false
  end.

(** A decimal literal: digits, fraction, exponent, imaginary suffix. *)
Definition lex_number (s : list ascii) : option (constant * list ascii) :=
  let '(ip, r1) := span is_digit s in
  let '(fp, has_dot, r2) :=
    match r1 with
    | c :: r => if in_range 46 46 c
                then let '(fp, r') := span is_digit r in (fp, true, r')
                else ([], false, r1)
    | [] => ([], false, r1)
    end in
  let '(ex, has_exp, r3) :=
    match r2 with
    | c :: r =>
        if in_range 101 101 c || in_range 69 69 c then
          let '(sign, r') :=
            match r with
            | d :: t => if in_range 43 43 d then (1, t)
                        else if in_range 45 45 d then (-1, t) else (1, r)
            | [] => (1, r)
            end in
          let '(ed, r'') := span is_digit r' in
          match ed with
          | [] => (0, false, r2)
          | _ => (sign * digits_value ed, true, r'')
          end
        else (0, false, r2)
    | [] => (0, false, r2)
    end in
  let '(imag, r4) :=
    match r3 with
    | c :: r => if in_range 106 106 c || in_range 74 74 c then (true, r) else (false, r3)
    | [] => (false, r3)
    end in
  let m := digits_value (ip ++ fp) in
  let e := ex - Z.of_nat (length fp) in
  if (length ip + length fp =? 0)%nat then None
  else if (1 <? length ip)%nat && starts_with (in_range 48 48) ip then None
  else if starts_with is_name_char r4 then None
  else if imag then Some (CImag m e, r4)
  else if has_dot || has_exp then Some (CFloat m e, r4)
  else Some (CInt m, r4).

(** The body of a string literal opened by [q]. *)
Fixpoint lex_string (q : ascii) (s : list ascii) : option (list ascii * list ascii) :=
  match s with
  | [] => None
  | c :: s' =>
      if Ascii.eqb c q then Some ([], s')
      else if is_plain c then
        match lex_string q s' with
        | Some (body, rest) => Some (c :: body, rest)
        | None => None
        end
      else None
  end.

(** The tokens of a source line; [None] when a character or a literal lies
    outside the fragment. *)
Fixpoint lex (fuel : nat) (s : list ascii) : option (list token) :=
  match fuel with
  | O => None
  | S fuel' =>
      match s with
      | [] => Some []
      | c :: rest =>
          let one (t : token) (r : list ascii) := cons t <$> lex fuel' r in
          if is_blank c then lex fuel' rest
          else if is_digit c || (in_range 46 46 c && starts_with is_digit rest) then
            match lex_number s with
            | Some (k, r) => one (TNumber k) r
            | None => None
            end
          else if is_name_start c then
            let '(id, r) := span is_name_char s in
            let id := string_of_list_ascii id in
            if is_keyword id || starts_with is_quote r then None
            else one (TName id) r
          else if is_quote c then
            match lex_string c rest with
            | Some (body, r) => one (TString (string_of_list_ascii body)) r
            | None => None
            end
          else if in_range 40 40 c then one TLPar rest
          else if in_range 41 41 c then one TRPar rest
          else if in_range 44 44 c then one TComma rest
          else if in_range 43 43 c then one TPlus rest
          else if in_range 45 45 c then one TMinus rest
          else if in_range 46 46 c then
            if starts_with (in_range 46 46) rest then None else one TDot rest
          else if in_range 47 47 c then
            if starts_with (in_range 47 47) rest then None else one TSlash rest
          else if in_range 42 42 c then
            match rest with
            | d :: rest' => if in_range 42 42 d then one TPow rest' else one TStar rest
            | [] => one TStar rest
            end
          else None
      end
  end.

(** Outcome of parsing: a tree and the tokens left, a syntax error, or a
    token sequence outside the fragment. *)
Inductive parsed (A : Type) : Type :=
| Parsed (a : A) (rest : list token)
| SyntaxErr
| Outside.

Arguments Parsed {A} a rest.
Arguments SyntaxErr {A}.
Arguments Outside {A}.

Definition pbind {A B} (p : parsed A) (k : A -> list token -> parsed B) : parsed B :=
  match p with
  | Parsed a rest => k a rest
  | SyntaxErr => SyntaxErr
  | Outside => Outside
  end.

(** Recursive descent along Python's grammar:
    sum, term, factor, power, primary, atom. *)
Fixpoint parse_sum (n : nat) (ts : list token) : parsed expr :=
  match n with
  | O => Outside
  | S n => pbind (parse_term n ts) (parse_sum_tail n)
  end
with parse_sum_tail (n : nat) (l : expr) (ts : list token) : parsed expr :=
  match n with
  | O => Outside
  | S n =>
      match ts with
      | TPlus :: ts' =>
          pbind (parse_term n ts') (fun r => parse_sum_tail n (BinOp l Add r))
      | TMinus :: ts' =>
          pbind (parse_term n ts') (fun r => parse_sum_tail n (BinOp l Sub r))
      | _ => Parsed l ts
      end
  end
with parse_term (n : nat) (ts : list token) : parsed expr :=
  match n with
  | O => Outside
  | S n => pbind (parse_factor n ts) (parse_term_tail n)
  end
with parse_term_tail (n : nat) (l : expr) (ts : list token) : parsed expr :=
  match n with
  | O => Outside
  | S n =>
      match ts with
      | TStar :: ts' =>
          pbind (parse_factor n ts') (fun r => parse_term_tail n (BinOp l Mult r))
      | TSlash :: ts' =>
          pbind (parse_factor n ts') (fun r => parse_term_tail n (BinOp l Div r))
      | _ => Parsed l ts
      end
  end
with parse_factor (n : nat) (ts : list token) : parsed expr :=
  match n with
  | O => Outside
  | S n =>
      match ts with
      | TPlus :: ts' => pbind (parse_factor n ts') (fun e => Parsed (UnaryOp UAdd e))
      | TMinus :: ts' => pbind (parse_factor n ts') (fun e => Parsed (UnaryOp USub e))
      | _ => parse_power n ts
      end
  end
with parse_power (n : nat) (ts : list token) : parsed expr :=
  match n with
  | O => Outside
  | S n =>
      pbind (parse_primary n ts) (fun base rest =>
        match rest with
        | TPow :: rest' =>
            pbind (parse_factor n rest') (fun ex => Parsed (BinOp base Pow ex))
        | _ => Parsed base rest
        end)
  end
with parse_primary (n : nat) (ts : list token) : parsed expr :=
  match n with
  | O => Outside
  | S n => pbind (parse_atom n ts) (parse_trailers n)
  end
with parse_trailers (n : nat) (a : expr) (ts : list token) : parsed expr :=
  match n with
  | O => Outside
  | S n =>
      match ts with
      | TDot :: TName id :: rest => parse_trailers n (Attribute a id) rest
      | TDot :: _ => SyntaxErr
      | TLPar :: rest =>
          pbind (parse_args n rest) (fun args => parse_trailers n (Call a args))
      | _ => Parsed a ts
      end
  end
with parse_args (n : nat) (ts : list token) : parsed (list expr) :=
  match n with
  | O => Outside
  | S n =>
      match ts with
      | TRPar :: rest => Parsed [] rest
      | _ =>
          pbind (parse_sum n ts) (fun e rest =>
            match rest with
            | TRPar :: rest' => Parsed [e] rest'
            | TComma :: rest' =>
                pbind (parse_args n rest') (fun es => Parsed (e :: es))
            | _ => SyntaxErr
            end)
      end
  end
with parse_atom (n : nat) (ts : list token) : parsed expr :=
  match n with
  | O => Outside
  | S n =>
      match ts with
      | TName id :: rest => Parsed (Name id) rest
      | TNumber c :: rest => Parsed (Constant c) rest
      | TString _ :: TString _ :: _ => Outside
      | TString s :: rest => Parsed (Constant (CStr s)) rest
      | TLPar :: TRPar :: rest => Parsed (Tuple []) rest
      | TLPar :: rest =>
          pbind (parse_sum n rest) (fun e rest' =>
            match rest' with
            | TRPar :: rest'' => Parsed e rest''
            | TComma :: rest'' =>
                pbind (parse_args n rest'') (fun es => Parsed (Tuple (e :: es)))
            | _ => SyntaxErr
            end)
      | TStar :: _ | TPow :: _ => Outside
      | _ => SyntaxErr
      end
  end.

(** The expressions after the first of an unparenthesised tuple, up to the
    end of the input. *)
Fixpoint parse_more (n : nat) (ts : list token) : parsed (list expr) :=
  match n with
  | O => Outside
  | S n' =>
      match ts with
      | [] => Parsed [] []
      | _ =>
          pbind (parse_sum n ts) (fun e rest =>
            match rest with
            | [] => Parsed [e] []
            | TComma :: rest' => pbind (parse_more n' rest') (fun es => Parsed (e :: es))
            | _ => SyntaxErr
            end)
      end
  end.

Definition parse_eval_input (ts : list token) : parsed expr :=
  let n := (10 * (length ts + 1))%nat in
  pbind (parse_sum n ts) (fun e rest =>
    match rest with
    | [] => Parsed e []
    | TComma :: rest' => pbind (parse_more n rest') (fun es => Parsed (Tuple (e :: es)))
    | _ => SyntaxErr
    end).

Definition py_compile {F : Type} (source : string) : result F expr :=
  let s := list_ascii_of_string source in
  match lex (S (length s)) s with
  | None => Unmodelled
  | Some ts =>
      match parse_eval_input ts with
      | Parsed e _ => Ok e
      | SyntaxErr => Raise SyntaxError
      | Outside => Unmodelled
      end
  end.

(** [str.strip()]. *)
Fixpoint lstrip (s : list ascii) : list ascii :=
  match s with
  | c :: s' => if is_space c then lstrip s' else s
  | [] => []
  end.

Definition strip (s : string) : string :=
  string_of_list_ascii (rev (lstrip (rev (lstrip (list_ascii_of_string s))))).

(* ================================================================= *)
(** ** parse_function *)

Section ParseFunction.
Context {F : Type} `{PyFloat F} `{PyMath F}.

(** The dictionary built from [dir(math)], with [abs] added. *)
Definition allowed_names : gmap string (value F) :=
  <["abs" := VBuiltin "abs"]>
    (list_to_map
       ((fun name => (name, math_getattr name)) <$>
          filter (fun name => negb (String.prefix "_" name)) dir_math)).

(** The globals handed to [eval]: a dict with the single key
    [__builtins__], bound to an empty dict. *)
Definition eval_globals : gmap string (value F) :=
  {[ "__builtins__" := VOther "dict" ]}.

Definition eval_builtins : gmap string (value F) := ∅.

(** The closure [func] returned by [parse_function]. *)
Definition func (compiled : expr) (allowed : gmap string (value F)) (x : F)
  : result F F :=
  let local_context := <["x" := VFloat x]> allowed in
  match eval eval_builtins eval_globals local_context compiled with
  | Raise exc => Raise (FunctionParserError (ErrorEvaluatingAt x exc))
  | Unmodelled => Unmodelled
  | Ok value =>
      if is_complex value then Raise (FunctionParserError ComplexResult)
      else py_float value
  end.

Definition parse_function (expression : string) : result F (AllowedFunction F) :=
  let expression := strip expression in
  if String.eqb expression EmptyString then
    Raise (FunctionParserError ExpressionEmpty)
  else
    let allowed := allowed_names in
    match py_compile expression with
    | Raise SyntaxError => Raise (FunctionParserError (InvalidExpression SyntaxError))
    | Raise exc => Raise exc
    | Unmodelled => Unmodelled
    | Ok compiled => Ok (func compiled allowed)
    end.

End ParseFunction.

(* ================================================================= *)
(** ** The math module in exact arithmetic *)

Definition Q_of_decimal (m e : Z) : Q :=
  if 0 <=? e then inject_Z (m * 10 ^ e) else m # Z.to_pos (10 ^ (- e)).

(** [x ** y]: exact for an integral exponent. *)
Definition Q_float_pow (x y : Q) : result Q (value Q) :=
  let y' := Qred y in
  if negb (Pos.eqb (Qden y') 1) then Unmodelled
  else if (Qnum y' <? 0) && Qeq_bool x 0 then Raise ZeroDivisionError
  else Ok (VFloat (Qpower x (Qnum y'))).

Definition Q_math_getattr (name : string) : value Q :=
  if String.eqb name "pi" then VFloat (884279719003555 # 281474976710656)
  else if String.eqb name "e" then VFloat (6121026514868073 # 2251799813685248)
  else if String.eqb name "tau" then VFloat (884279719003555 # 140737488355328)
  else if String.eqb name "inf" || String.eqb name "nan" then VOther "float"
  else VBuiltin name.

(** The argument conversion of the functions of [math]. *)
Definition Q_as_float (v : value Q) : result Q Q :=
  match v with
  | VInt n => Ok (inject_Z n)
  | VFloat x => Ok x
  | VOther _ => Unmodelled
  | _ => Raise (TypeError "must be real number")
  end.

Definition Q_math_call (name : string) (argv : list (value Q))
  : result Q (value Q) :=
  if String.eqb name "fabs" then
    match argv with
    | [v] => x <~ Q_as_float v ;; Ok (VFloat (Qabs x))
    | _ => Raise (TypeError "math.fabs() takes exactly one argument")
    end
  else if String.eqb name "sqrt" then
    match argv with
    | [v] => x <~ Q_as_float v ;;
             if negb (Qle_bool 0 x) then Raise (ValueError "math domain error")
             else if Qeq_bool x 0 then Ok (VFloat 0%Q)
             else Unmodelled
    | _ => Raise (TypeError "math.sqrt() takes exactly one argument")
    end
  else if String.eqb name "log" then
    match argv with
    | [v] => x <~ Q_as_float v ;;
             if Qle_bool x 0 then Raise (ValueError "math domain error")
             else if Qeq_bool x 1 then Ok (VFloat 0%Q)
             else Unmodelled
    | _ => Unmodelled
    end
  else Unmodelled.

#[export] Instance Q_PyMath : PyMath Q := {|
  of_decimal := Q_of_decimal;
  float_pow := Q_float_pow;
  math_getattr := Q_math_getattr;
  math_call := Q_math_call
|}.

(* ================================================================= *)
(** * Properties *)

(** ** Laws of the monad and of the loop *)

Section MonadLaws.
Context {F : Type}.

Lemma outcome_bind {A B} (m : M F A) (k : A -> M F B) :
  outcome (x <- m ;; k x) = (a <~ outcome m ;; outcome (k a)).
Proof.
  destruct m as [log [a | e |]]; simpl; try reflexivity.
  destruct (k a); reflexivity.
Qed.

Lemma calls_bind {A B} (m : M F A) (k : A -> M F B) :
  calls (x <- m ;; k x) =
  calls m ++ match outcome m with Ok a => calls (k a) | _ => [] end.
Proof.
  destruct m as [log [a | e |]]; simpl; try (rewrite app_nil_r; reflexivity).
  destruct (k a); reflexivity.
Qed.

Lemma outcome_ret {A} (a : A) : outcome (ret (F:=F) a) = Ok a.
Proof. reflexivity. Qed.

Lemma outcome_raise {A} (e : exn F) : outcome (raise (A:=A) e) = Raise e.
Proof. reflexivity. Qed.

Lemma outcome_call (g : AllowedFunction F) x : outcome (call g x) = g x.
Proof. reflexivity. Qed.

Lemma local_Ok {A} var (v : option A) a :
  outcome (local (F:=F) var v) = Ok a -> v = Some a.
Proof. destruct v; simpl; congruence. Qed.

(** The invariant rule of [for_range]: [Inv] holds of the loop variable and
    the state before each iteration, [P] of a value returned from inside,
    [E] when an iteration fails. *)
Lemma for_range_rule {St R} (body : Z -> St -> M F (control St R))
    (Inv : Z -> St -> Prop) (P : R -> Prop) (E : Prop) :
  (forall i s, Inv i s ->
     match outcome (body i s) with
     | Ok (Continue s') => Inv (i + 1) s'
     | Ok (Return r) => P r
     | _ => E
     end) ->
  forall n i s, Inv i s ->
    match outcome (for_range body n i s) with
    | Ok (Continue s') => Inv (i + Z.of_nat n) s'
    | Ok (Return r) => P r
    | _ => E
    end.
Proof.
  intros Hbody n. induction n as [| n IH]; intros i s Hi.
  - simpl. replace (i + Z.of_nat 0) with i by lia. exact Hi.
  - cbn [for_range]. rewrite outcome_bind.
    specialize (Hbody i s Hi).
    destruct (outcome (body i s)) as [[s' | r] | e |]; simpl; try exact Hbody.
    specialize (IH (i + 1) s' Hbody).
    replace (i + Z.of_nat (S n)) with (i + 1 + Z.of_nat n) by lia. exact IH.
Qed.

End MonadLaws.

(** Runs a computation symbolically: splits on every call outcome and
    every test, but leaves a [for_range] loop alone. *)
Ltac mrun :=
  repeat first
    [ rewrite outcome_bind | rewrite outcome_call | rewrite outcome_ret
    | rewrite outcome_raise
    | progress cbn [rbind]
    | match goal with
      | |- context [rbind ?t _] =>
          lazymatch t with
          | context [for_range] => fail
          | _ => destruct t eqn:?
          end
      | |- context [if ?b then _ else _] => destruct b eqn:?
      end ].

Ltac locals_bound :=
  repeat match goal with
         | Hl : outcome (local _ _) = Ok _ |- _ => apply local_Ok in Hl
         end.

(* ================================================================= *)
(** ** Counting the iterations *)

Section Counting.
Context {F : Type} `{PyFloat F}.

(** [len(iterations) == iterations_used] and
    [iterations[-1]["iteration"] == iterations_used]. *)
Definition well_counted (r : MethodResult F) : Prop :=
  iterations_used r = Z.of_nat (length (iterations r)) /\
  it_iteration <$> last (iterations r) = Some (iterations_used r).

(** The loop invariant: before iteration [i] the list holds the records
    [1 .. i - 1], and [error] is unbound as long as it is empty. *)
Definition counted (i : Z) (its : list (Iteration F)) (err : option F) : Prop :=
  Z.of_nat (length its) = i - 1 /\
  (its = [] -> err = None) /\
  (its <> [] -> it_iteration <$> last its = Some (i - 1)).

Lemma counted_start : counted 1 [] None.
Proof. split; [reflexivity | split; [auto | congruence]]. Qed.

Lemma counted_snoc i its err x fx e e' :
  counted i its err ->
  counted (i + 1) (its ++ [build_iteration i x fx e]) (Some e').
Proof.
  intros (Hlen & _ & _). repeat split.
  - rewrite length_app. simpl. lia.
  - intros Hnil. destruct its; discriminate.
  - intros _. rewrite last_snoc. simpl. f_equal. lia.
Qed.

Lemma counted_return i its err x fx e c e' :
  counted i its err ->
  well_counted (mkMethodResult (its ++ [build_iteration i x fx e]) c e' i).
Proof.
  intros (Hlen & _ & _). split; simpl.
  - rewrite length_app. simpl. lia.
  - rewrite last_snoc. reflexivity.
Qed.

Lemma counted_finish n its err e c :
  counted (1 + Z.of_nat (Z.to_nat n)) its err -> err = Some e ->
  well_counted (mkMethodResult its c e n).
Proof.
  intros (Hlen & Hnil & Hlast) ->.
  assert (Hne : its <> []) by (intros ->; specialize (Hnil eq_refl); discriminate).
  assert (0 < Z.of_nat (length its)) by (destruct its; [congruence | simpl; lia]).
  assert (Hn : Z.of_nat (Z.to_nat n) = n) by lia.
  split; simpl.
  - lia.
  - rewrite (Hlast Hne). f_equal. lia.
Qed.

(** A loop whose body keeps [counted], followed by the final [return]. *)
Lemma loop_counted {St} (body : Z -> St -> M F (control St (MethodResult F)))
    (its : St -> list (Iteration F)) (err : St -> option F)
    (fin : control St (MethodResult F) -> M F (MethodResult F)) n s0 r :
  (forall i s, counted i (its s) (err s) ->
     match outcome (body i s) with
     | Ok (Continue s') => counted (i + 1) (its s') (err s')
     | Ok (Return r) => well_counted r
     | _ => True
     end) ->
  its s0 = [] -> err s0 = None ->
  (forall r', fin (Return r') = ret r') ->
  (forall st r', outcome (fin (Continue st)) = Ok r' ->
     exists e c, err st = Some e /\ r' = mkMethodResult (its st) c e n) ->
  (out <~ outcome (for_range body (Z.to_nat n) 1 s0) ;; outcome (fin out)) = Ok r ->
  well_counted r.
Proof.
  intros Hbody Hits Herr Hret Hfin.
  pose proof (for_range_rule body (fun i st => counted i (its st) (err st))
                well_counted True Hbody (Z.to_nat n) 1 s0) as Hloop.
  destruct (outcome (for_range body (Z.to_nat n) 1 s0)) as [[st | r'] | |];
    cbn [rbind]; try discriminate.
  - intros Hr. destruct (Hfin _ _ Hr) as (e & c & He & ->).
    eapply counted_finish; [apply Hloop | exact He].
    rewrite Hits, Herr. apply counted_start.
  - rewrite Hret, outcome_ret. intros [= <-]. apply Hloop.
    rewrite Hits, Herr. apply counted_start.
Qed.

Ltac body_counted :=
  intros ? ? ?; mrun; eauto using counted_snoc, counted_return.

Ltac finish_counted :=
  intros ? ?; mrun; try discriminate; intros [= <-]; locals_bound; eauto.

Lemma bisection_counted func a b tol n r :
  outcome (bisection func a b tol n) = Ok r -> well_counted r.
Proof.
  unfold bisection. mrun; try discriminate.
  apply loop_counted with (its := bi_iterations) (err := bi_error); try reflexivity.
  - unfold bisection_body. body_counted.
  - finish_counted.
Qed.

Lemma regula_falsi_counted func a b tol n r :
  outcome (regula_falsi func a b tol n) = Ok r -> well_counted r.
Proof.
  unfold regula_falsi. mrun; try discriminate.
  apply loop_counted with (its := rf_iterations) (err := rf_error); try reflexivity.
  - unfold regula_falsi_body, py_div. body_counted.
  - finish_counted.
Qed.

Lemma secant_counted func x0 x1 tol n r :
  outcome (secant func x0 x1 tol n) = Ok r -> well_counted r.
Proof.
  unfold secant. mrun.
  apply loop_counted with (its := se_iterations) (err := se_error); try reflexivity.
  - unfold secant_body, py_div. body_counted.
  - finish_counted.
Qed.

Lemma newton_raphson_counted func derivative x0 tol n r :
  outcome (newton_raphson func derivative x0 tol n) = Ok r -> well_counted r.
Proof.
  unfold newton_raphson. mrun.
  apply loop_counted with (its := cu_iterations) (err := cu_error); try reflexivity.
  - unfold newton_raphson_body, py_div. body_counted.
  - unfold finish_current. finish_counted.
Qed.

Lemma fixed_point_counted g_func x0 tol n r :
  outcome (fixed_point g_func x0 tol n) = Ok r -> well_counted r.
Proof.
  unfold fixed_point. mrun.
  apply loop_counted with (its := cu_iterations) (err := cu_error); try reflexivity.
  - unfold fixed_point_body. body_counted.
  - unfold finish_current. finish_counted.
Qed.

Lemma modified_secant_counted func x0 delta tol n r :
  outcome (modified_secant func x0 delta tol n) = Ok r -> well_counted r.
Proof.
  unfold modified_secant. mrun; try discriminate.
  apply loop_counted with (its := cu_iterations) (err := cu_error); try reflexivity.
  - unfold modified_secant_body, py_div. body_counted.
  - unfold finish_current. finish_counted.
Qed.

(** C2.  Every [MethodResult] returned by one of the six solve functions
    has [iterations_used] equal to the length of its [iterations] list and
    to the iteration index stored in the last record of that list. *)
Theorem iterations_used_is_count (c : solve_call F) (r : MethodResult F) :
  outcome (solve c) = Ok r ->
  iterations_used r = Z.of_nat (length (iterations r)) /\
  it_iteration <$> last (iterations r) = Some (iterations_used r).
Proof.
  destruct c; simpl; intros Hr.
  - exact (bisection_counted _ _ _ _ _ Hr).
  - exact (regula_falsi_counted _ _ _ _ _ Hr).
  - exact (secant_counted _ _ _ _ _ Hr).
  - exact (newton_raphson_counted _ _ _ _ _ Hr).
  - exact (fixed_point_counted _ _ _ _ Hr).
  - exact (modified_secant_counted _ _ _ _ _ Hr).
Qed.

End Counting.

(* ================================================================= *)
(** ** Calls that fail, and brackets that are refused *)

Section Propagation.
Context {F : Type} `{PyFloat F}.

(** Two computations fail the same way. *)
Definition same_failure {A B} (r1 : result F A) (r2 : result F B) : Prop :=
  match r1, r2 with
  | Raise e1, Raise e2 => e1 = e2
  | Unmodelled, Unmodelled => True
  | _, _ => False
  end.

Definition succeeded {A} (r : result F A) : Prop := exists a, r = Ok a.

(** Every logged call either returned, or failed and its failure is the
    outcome of the whole computation. *)
Definition faithful {A} (m : M F A) : Prop :=
  forall g x, In (g, x) (calls m) ->
    succeeded (g x) \/ same_failure (g x) (outcome m).

Lemma faithful_ret {A} (a : A) : faithful (ret a).
Proof. intros g x []. Qed.

Lemma faithful_raise {A} (e : exn F) : faithful (raise (A:=A) e).
Proof. intros g x []. Qed.

Lemma faithful_call g x : faithful (call g x).
Proof.
  intros g' x' [[= <- <-] | []]. unfold call, outcome; simpl.
  destruct (g x); [left; eexists; reflexivity | right; reflexivity | right; exact I].
Qed.

Lemma faithful_bind {A B} (m : M F A) (k : A -> M F B) :
  faithful m -> (forall a, faithful (k a)) -> faithful (x <- m ;; k x).
Proof.
  intros Hm Hk g x. rewrite calls_bind, outcome_bind, in_app_iff.
  destruct (outcome m) as [a | e |] eqn:Hout; cbn [rbind].
  - intros [Hin | Hin].
    + destruct (Hm g x Hin) as [Hok | Hbad]; [left; exact Hok |].
      rewrite Hout in Hbad. destruct (g x); contradiction.
    + exact (Hk a g x Hin).
  - intros [Hin | []]. specialize (Hm g x Hin). rewrite Hout in Hm. exact Hm.
  - intros [Hin | []]. specialize (Hm g x Hin). rewrite Hout in Hm. exact Hm.
Qed.

Lemma faithful_local {A} var (v : option A) : faithful (local var v).
Proof. destruct v; [apply faithful_ret | apply faithful_raise]. Qed.

Lemma faithful_for_range {St R} (body : Z -> St -> M F (control St R)) :
  (forall i s, faithful (body i s)) ->
  forall n i s, faithful (for_range body n i s).
Proof.
  intros Hbody n. induction n as [| n IH]; intros i s; cbn [for_range].
  - apply faithful_ret.
  - apply faithful_bind; [apply Hbody |].
    intros [s' | r]; [apply IH | apply faithful_ret].
Qed.

Ltac faithful_tac :=
  repeat first
    [ apply faithful_ret | apply faithful_raise | apply faithful_call
    | apply faithful_local
    | apply faithful_bind; [| intros ?]
    | apply faithful_for_range; intros ? ?
    | match goal with
      | |- faithful (if ?b then _ else _) => destruct b
      | |- faithful (match ?c with _ => _ end) => destruct c
      end ].

Lemma faithful_solve (c : solve_call F) : faithful (solve c).
Proof.
  destruct c; simpl;
    unfold bisection, regula_falsi, secant, newton_raphson, fixed_point,
      modified_secant, finish_current, bisection_body, regula_falsi_body,
      secant_body, newton_raphson_body, fixed_point_body,
      modified_secant_body, py_div;
    faithful_tac.
Qed.

Lemma solve_propagates (c : solve_call F) g x e :
  In (g, x) (calls (solve c)) -> g x = Raise e -> outcome (solve c) = Raise e.
Proof.
  intros Hin Hg. destruct (faithful_solve c g x Hin) as [[v Hv] | Hsame].
  - congruence.
  - rewrite Hg in Hsame. destruct (outcome (solve c)); simpl in Hsame;
      [contradiction | congruence | contradiction].
Qed.

(** C6.  When [f(a)] and [f(b)] are computed and [f(a) * f(b) >= 0],
    [bisection] and [regula_falsi] raise their bracket [ValueError] having
    called [f] at [a] and at [b] only: no iteration runs and no iteration
    record is produced. *)
Theorem same_sign_bracket_rejected func a b tol max_iter fa fb :
  func a = Ok fa -> func b = Ok fb -> fge (fmul fa fb) (of_int 0) = true ->
  bisection func a b tol max_iter =
    ([(func, a); (func, b)],
     Raise (ValueError "Bisection requires f(a) and f(b) to have opposite signs.")) /\
  regula_falsi func a b tol max_iter =
    ([(func, a); (func, b)],
     Raise (ValueError "Regula Falsi requires f(a) and f(b) to have opposite signs.")).
Proof.
  intros Ha Hb Hge. unfold bisection, regula_falsi, call, bind.
  rewrite Ha, Hb, Hge. split; reflexivity.
Qed.

End Propagation.

(* ================================================================= *)
(** ** The loop runs out, or never runs *)

Section Exhaustion.
Context {F : Type} `{PyFloat F}.

(** The checks a solve function makes before its loop succeed. *)
Definition pre_loop_checks (c : solve_call F) : Prop :=
  match c with
  | Bisection func a b _ _ | RegulaFalsi func a b _ _ =>
      exists fa fb, func a = Ok fa /\ func b = Ok fb /\
                    fge (fmul fa fb) (of_int 0) = false
  | ModifiedSecant _ _ delta _ _ => feq delta (of_int 0) = false
  | _ => True
  end.

(** The local variable the final [return] finds unbound when the loop body
    never ran. *)
Definition unbound_variable (c : solve_call F) : string :=
  match c with
  | Bisection _ _ _ _ _ => "c"
  | _ => "error"
  end.

(** C9 (amended).  When [max_iter <= 0] and the checks made before the loop
    pass, a solve call raises [UnboundLocalError]: for [c] in [bisection],
    for [error] in the five other functions. *)
Theorem no_iteration_unbound_local (c : solve_call F) :
  max_iter_of c <= 0 -> pre_loop_checks c ->
  outcome (solve c) = Raise (UnboundLocalError (unbound_variable c)).
Proof.
  destruct c; simpl; intros Hn Hpre;
    unfold bisection, regula_falsi, secant, newton_raphson, fixed_point,
      modified_secant;
    replace (Z.to_nat max_iter) with O by lia.
  - destruct Hpre as (fa & fb & Ha & Hb & Hge).
    rewrite !outcome_bind, !outcome_call, Ha. cbn [rbind].
    rewrite !outcome_bind, !outcome_call, Hb. cbn [rbind]. rewrite Hge.
    reflexivity.
  - destruct Hpre as (fa & fb & Ha & Hb & Hge).
    rewrite !outcome_bind, !outcome_call, Ha. cbn [rbind].
    rewrite !outcome_bind, !outcome_call, Hb. cbn [rbind]. rewrite Hge.
    reflexivity.
  - reflexivity.
  - reflexivity.
  - reflexivity.
  - rewrite Hpre. reflexivity.
Qed.


(** After the first iteration the last record holds the estimate and the
    error the locals hold. *)
Definition tracked (i : Z) (its : list (Iteration F)) (est err : option F) : Prop :=
  i = 1 \/
  exists rec, last its = Some rec /\ est = Some (it_xn rec) /\ err = Some (it_error rec).

Lemma tracked_snoc i its x fx e :
  tracked (i + 1) (its ++ [build_iteration i x fx e]) (Some x) (Some e).
Proof. right. eexists. rewrite last_snoc. repeat split. Qed.

Lemma loop_tracked {St} (body : Z -> St -> M F (control St (MethodResult F)))
    (its : St -> list (Iteration F)) (est err : St -> option F) n s0 st :
  (forall i s,
     match outcome (body i s) with
     | Ok (Continue s') => tracked (i + 1) (its s') (est s') (err s')
     | _ => True
     end) ->
  1 <= n ->
  outcome (for_range body (Z.to_nat n) 1 s0) = Ok (Continue st) ->
  exists rec, last (its st) = Some rec /\ est st = Some (it_xn rec) /\
              err st = Some (it_error rec).
Proof.
  intros Hbody Hn Hloop.
  assert (Hstep : forall i s, tracked i (its s) (est s) (err s) ->
            match outcome (body i s) with
            | Ok (Continue s') => tracked (i + 1) (its s') (est s') (err s')
            | Ok (Return _) => True
            | _ => True
            end).
  { intros i s _. specialize (Hbody i s).
    destruct (outcome (body i s)) as [[? | ?] | |]; auto. }
  pose proof (for_range_rule body _ (fun _ => True) True Hstep (Z.to_nat n) 1 s0
                (or_introl eq_refl)) as Hrule.
  rewrite Hloop in Hrule. destruct Hrule as [Hone | Hrec]; [lia | exact Hrec].
Qed.



End Exhaustion.

(* ================================================================= *)
(** ** Fixed-point iteration *)

Section FixedPoint.
Context {F : Type} `{PyFloat F}.





Lemma Forall_removelast {A} (P : A -> Prop) (l : list A) :
  Forall P l -> Forall P (removelast l).
Proof.
  induction 1 as [| x l Hx Hl IH]; simpl; [constructor |].
  destruct l; [constructor | constructor; assumption].
Qed.







End FixedPoint.

(* ================================================================= *)
(** ** Bracketing methods in exact arithmetic *)

Section Bracketing.
Open Scope Q_scope.

Lemma flt_Q (x y : Q) : negb (Qle_bool y x) = true <-> x < y.
Proof.
  rewrite negb_true_iff. split.
  - intros Hle. apply Qnot_le_lt. intros Hyx.
    apply Qle_bool_iff in Hyx. congruence.
  - intros Hlt. destruct (Qle_bool y x) eqn:Hle; [| reflexivity].
    apply Qle_bool_iff in Hle. lra.
Qed.

Lemma flt_Q_false (x y : Q) : negb (Qle_bool y x) = false <-> y <= x.
Proof.
  rewrite negb_false_iff. apply Qle_bool_iff.
Qed.

Lemma fge_Q_false (x y : Q) : Qle_bool y x = false <-> x < y.
Proof.
  split.
  - intros Hle. apply Qnot_le_lt. intros Hyx.
    apply Qle_bool_iff in Hyx. congruence.
  - intros Hlt. destruct (Qle_bool y x) eqn:Hle; [| reflexivity].
    apply Qle_bool_iff in Hle. lra.
Qed.


Ltac q_ops :=
  cbn [fadd fsub fmul fdiv fneg fabs flt fge feq of_int Q_PyFloat] in *.

Ltac split_test H :=
  match goal with
  | |- context [if ?b then _ else _] => destruct b eqn:H
  end.

Definition within (lo hi x : Q) : Prop := lo <= x /\ x <= hi.

Lemma midpoint_within lo hi a b :
  within lo hi a -> within lo hi b -> within lo hi ((a + b) / inject_Z 2).
Proof.
  unfold within. intros [Ha1 Ha2] [Hb1 Hb2].
  assert (Hc : (a + b) / inject_Z 2 == (a + b) * (1 # 2)) by (unfold Qdiv; reflexivity).
  rewrite Hc. split; lra.
Qed.

Lemma within_min_max a b : within (Qmin a b) (Qmax a b) a /\ within (Qmin a b) (Qmax a b) b.
Proof.
  unfold within.
  pose proof (Q.le_min_l a b). pose proof (Q.le_min_r a b).
  pose proof (Q.le_max_l a b). pose proof (Q.le_max_r a b). auto.
Qed.





(** What holds of a result returned from inside the loop. *)
Definition stopped (g : Q -> Q) (tol lo hi : Q) (r : MethodResult Q) : Prop :=
  (error r < tol \/ Qabs (g (root r)) < tol) /\ within lo hi (root r).

Definition bisection_inv (lo hi : Q) (i : Z) (st : bisection_locals Q) : Prop :=
  within lo hi (bi_a st) /\ within lo hi (bi_b st) /\
  (i = 1%Z \/ exists c e, bi_c st = Some c /\ bi_error st = Some e /\ within lo hi c).

Lemma bisection_body_inv g tol lo hi i st :
  bisection_inv lo hi i st ->
  match outcome (bisection_body (total g) tol i st) with
  | Ok (Continue st') => bisection_inv lo hi (i + 1) st'
  | Ok (Return r) => stopped g tol lo hi r
  | _ => False
  end.
Proof.
  intros (Ha & Hb & _). unfold bisection_body.
  rewrite outcome_bind, outcome_call. unfold total at 1. cbn [rbind].
  pose proof (midpoint_within Ha Hb) as Hc. q_ops.
  split_test Htest.
  - rewrite outcome_ret. split; [| exact Hc]. cbn [error root].
    apply orb_true_iff in Htest. destruct Htest as [Ht | Ht]; apply flt_Q in Ht; auto.
  - split_test Hside; rewrite outcome_ret;
      (split; [| split]; cbn; try assumption; right; eauto).
Qed.



Lemma bisection_brackets (g : Q -> Q) a b tol n :
  g a * g b < 0 -> (1 <= n)%Z ->
  exists r, outcome (bisection (total g) a b tol n) = Ok r /\
    (error r < tol \/ Qabs (g (root r)) < tol \/ iterations_used r = n) /\
    Qmin a b <= root r /\ root r <= Qmax a b.
Proof.
  intros Hsign Hn. unfold bisection.
  rewrite outcome_bind, outcome_call. unfold total at 1. cbn [rbind].
  rewrite outcome_bind, outcome_call. unfold total at 1. cbn [rbind].
  apply fge_Q_false in Hsign. q_ops. change (inject_Z 0) with 0.
  rewrite Hsign, outcome_bind.
  destruct (within_min_max a b) as [Ha Hb].
  pose proof (for_range_rule (bisection_body (total g) tol)
                (bisection_inv (Qmin a b) (Qmax a b))
                (stopped g tol (Qmin a b) (Qmax a b)) False
                (fun i s => @bisection_body_inv g tol _ _ i s)
                (Z.to_nat n) 1 (bisection_start a b (g a) (g b))) as Hloop.
  destruct (outcome (for_range _ _ _ _)) as [[st | r] | |]; cbn [rbind].
  - destruct Hloop as (_ & _ & [Hone | (c & e & Hc & He & Hw)]);
      [split; [exact Ha | split; [exact Hb | left; reflexivity]] | lia |].
    rewrite Hc, He. eexists. split; [reflexivity |]. cbn. destruct Hw. auto.
  - destruct Hloop as ([Ht | Ht] & Hw1 & Hw2);
      [split; [exact Ha | split; [exact Hb | left; reflexivity]] | |];
      (eexists; split; [reflexivity | auto]).
  - destruct Hloop. split; [exact Ha | split; [exact Hb | left; reflexivity]].
  - destruct Hloop. split; [exact Ha | split; [exact Hb | left; reflexivity]].
Qed.


End Bracketing.


(* ================================================================= *)
(** ** The expression evaluator *)



Section EvaluatorProperties.
Context {F : Type} `{PyFloat F} `{PyMath F}.

Section Names.
Variables builtins globals locals : gmap string (value F).
Variable n : string.
Hypothesis Hlocals : locals !! n = None.
Hypothesis Hglobals : globals !! n = None.
Hypothesis Hbuiltins : builtins !! n = None.




End Names.

Lemma parse_function_Ok (expression : string) (f : AllowedFunction F) :
  parse_function expression = Ok f ->
  exists compiled,
    py_compile (F := F) (strip expression) = Ok compiled /\
    f = func compiled allowed_names.
Proof.
  unfold parse_function. destruct (String.eqb _ _); [discriminate |].
  destruct (py_compile (strip expression)) as [compiled | [] |]; try discriminate.
  intros [= <-]. eauto.
Qed.

Lemma func_outcomes compiled allowed x :
  match eval eval_builtins eval_globals (<["x" := VFloat x]> allowed) compiled with
  | Raise cause =>
      func compiled allowed x = Raise (FunctionParserError (ErrorEvaluatingAt x cause))
  | Unmodelled => func compiled allowed x = Unmodelled
  | Ok (VComplex re im) =>
      func compiled allowed x = Raise (FunctionParserError ComplexResult)
  | Ok v => func compiled allowed x = py_float v
  end.
Proof.
  unfold func. destruct (eval _ _ _ compiled) as [[] | |]; reflexivity.
Qed.


(** C5 (amended).  Inside any of the six solve calls, when the parsed
    Function is called at [x] and the evaluation raises (an undefined
    name, a math-domain error, a division by zero, ...), the solve call
    ends with the [FunctionParserError] that carries [x] and that cause;
    when the evaluation yields a complex number, the solve call ends with
    the [FunctionParserError] of the fixed complex-number message, which
    carries neither [x] nor a cause.  No solver catches either. *)
Theorem evaluation_error_leaves_solver (c : solve_call F)
    (compiled : expr) (allowed : gmap string (value F)) (x : F) :
  In (func compiled allowed, x) (calls (solve c)) ->
  match eval eval_builtins eval_globals (<["x" := VFloat x]> allowed) compiled with
  | Raise cause =>
      outcome (solve c) = Raise (FunctionParserError (ErrorEvaluatingAt x cause))
  | Ok (VComplex _ _) =>
      outcome (solve c) = Raise (FunctionParserError ComplexResult)
  | _ => True
  end.
Proof.
  intros Hin. pose proof (func_outcomes compiled allowed x) as Hf.
  destruct (eval _ _ _ compiled) as [[] | cause |]; try exact I;
    exact (solve_propagates c _ _ Hin Hf).
Qed.


(** C10.  The expression [(x, 1)] is accepted by [parse_function]; at every
    [x] its evaluation succeeds with a tuple, which is neither complex nor
    convertible by [float()]: the call raises the [TypeError] of the
    conversion as it is, not wrapped in a [FunctionParserError]. *)
Theorem tuple_result_raises_unwrapped_error (x : F) :
  parse_function "(x, 1)" =
    Ok (func (Tuple [Name "x"; Constant (CInt 1)]) allowed_names) /\
  eval eval_builtins eval_globals (<["x" := VFloat x]> allowed_names)
    (Tuple [Name "x"; Constant (CInt 1)]) = Ok (VTuple [VFloat x; VInt 1]) /\
  func (Tuple [Name "x"; Constant (CInt 1)]) allowed_names x =
    Raise (TypeError "float() argument must be a string or a real number") /\
  forall message,
    func (Tuple [Name "x"; Constant (CInt 1)]) allowed_names x <>
    Raise (FunctionParserError message).
Proof.
  assert (Hev : eval eval_builtins eval_globals (<["x" := VFloat x]> allowed_names)
                  (Tuple [Name "x"; Constant (CInt 1)]) =
                Ok (VTuple [VFloat x; VInt 1])).
  { cbn [eval]. unfold load_name. rewrite lookup_insert_eq. reflexivity. }
  assert (Hf : func (Tuple [Name "x"; Constant (CInt 1)]) allowed_names x =
               Raise (TypeError "float() argument must be a string or a real number")).
  { unfold func. rewrite Hev. reflexivity. }
  split; [vm_compute; reflexivity | split; [exact Hev | split; [exact Hf |]]].
  intros message. rewrite Hf. discriminate.
Qed.

(** [parse_function("os.system('x')")] parses; every call of the result
    stops at the lookup of [os]. *)
Example os_system_is_a_name_error (x : F) :
  parse_function "os.system('x')" =
    Ok (func (Call (Attribute (Name "os") "system") [Constant (CStr "x")])
          allowed_names) /\
  func (Call (Attribute (Name "os") "system") [Constant (CStr "x")])
    allowed_names x =
    Raise (FunctionParserError (ErrorEvaluatingAt x (NameError "os"))).
Proof. split; vm_compute; reflexivity. Qed.

End EvaluatorProperties.

(* ================================================================= *)
(** ** Runs in exact arithmetic *)

Section Runs.
Local Open Scope Q_scope.

(** [f(x) = x^2 - 2], [f(x) = x^2 + 1] and [g(x) = x / 2 + 1]. *)
Definition square_minus_two (x : Q) : Q := (x * x - 2)%Q.
Definition square_plus_one (x : Q) : Q := (x * x + 1)%Q.


(** The expressions [log(x)] and [x.real], compiled. *)
Definition log_of_x : expr := Call (Name "log") [Name "x"].

(** Three bisection steps on [x^2 - 2] over [[0, 2]]. *)
Lemma iterations_used_is_count_witness :
  exists r,
    outcome (solve (Bisection (total square_minus_two) 0 2 (1 # 8) 3)) = Ok r /\
    iterations_used r = Z.of_nat (length (iterations r)) /\
    it_iteration <$> last (iterations r) = Some (iterations_used r).
Proof.
  eexists. split; [vm_compute; reflexivity |].
  apply (iterations_used_is_count (Bisection (total square_minus_two) 0 2 (1 # 8) 3)).
  vm_compute. reflexivity.
Defined.




(** [x^2 + 1] is positive at both ends of [[0, 1]]. *)
Lemma same_sign_bracket_rejected_witness :
  bisection (total square_plus_one) 0 1 (1 # 8) 5 =
    ([(total square_plus_one, 0%Q); (total square_plus_one, 1%Q)],
     Raise (ValueError "Bisection requires f(a) and f(b) to have opposite signs.")) /\
  regula_falsi (total square_plus_one) 0 1 (1 # 8) 5 =
    ([(total square_plus_one, 0%Q); (total square_plus_one, 1%Q)],
     Raise (ValueError "Regula Falsi requires f(a) and f(b) to have opposite signs.")).
Proof.
  apply (same_sign_bracket_rejected (total square_plus_one) 0%Q 1%Q (1 # 8) 5
           (fa := square_plus_one 0) (fb := square_plus_one 1));
    reflexivity.
Defined.


(** A valid bracket and [max_iter = 0]. *)
Lemma no_iteration_unbound_local_witness :
  outcome (solve (Bisection (total square_minus_two) 0 2 (1 # 8) 0)) =
  Raise (UnboundLocalError "c").
Proof.
  apply (no_iteration_unbound_local
           (Bisection (total square_minus_two) 0 2 (1 # 8) 0)).
  - simpl. lia.
  - simpl. exists (square_minus_two 0), (square_minus_two 2).
    split; [reflexivity | split; reflexivity].
Defined.

(** With [max_iter = 0] and endpoints of the same sign, the bracket check
    comes first: the call raises the documented [ValueError]. *)
Lemma nonpositive_cap_with_bad_bracket :
  Z.le (max_iter_of (Bisection (total square_plus_one) 0 1 (1 # 8) 0)) 0 /\
  outcome (solve (Bisection (total square_plus_one) 0 1 (1 # 8) 0)) =
  Raise (ValueError "Bisection requires f(a) and f(b) to have opposite signs.").
Proof. split; [simpl; lia | reflexivity]. Qed.



(** Fixed-point iteration of [log(x)] from [-1]: the first call fails with
    a math-domain error, which is what the solver raises. *)
Lemma evaluation_error_leaves_solver_witness :
  outcome (solve (FixedPoint (func log_of_x allowed_names) (-1)%Q (1 # 8) 3)) =
  Raise (FunctionParserError
           (ErrorEvaluatingAt (-1)%Q (ValueError "math domain error"))).
Proof.
  assert (Hin : In (func log_of_x allowed_names, (-1)%Q)
                  (calls (solve (FixedPoint (func log_of_x allowed_names)
                                   (-1)%Q (1 # 8) 3)))).
  { vm_compute. left. reflexivity. }
  assert (Hev : eval eval_builtins eval_globals
                  (<["x" := VFloat (-1)%Q]> allowed_names) log_of_x =
                Raise (ValueError "math domain error")).
  { vm_compute. reflexivity. }
  pose proof (@evaluation_error_leaves_solver Q _ _
                (FixedPoint (func log_of_x allowed_names) (-1)%Q (1 # 8) 3)
                log_of_x allowed_names (-1)%Q Hin) as Hthm.
  rewrite Hev in Hthm. exact Hthm.
Defined.

(** [1j] evaluates to a complex number: the error raised is the fixed
    message, with no [x] and no cause in it. *)
Lemma complex_result_error_has_no_x :
  parse_function (F := Q) "1j" = Ok (func (Constant (CImag 1 0)) allowed_names) /\
  func (Constant (CImag 1 0)) allowed_names 2%Q =
    Raise (FunctionParserError ComplexResult) /\
  ~ exists cause : exn Q,
      FunctionParserError ComplexResult =
      FunctionParserError (ErrorEvaluatingAt 2%Q cause).
Proof.
  split; [vm_compute; reflexivity | split; [vm_compute; reflexivity |]].
  intros [cause Heq]. discriminate.
Qed.


(** [f(x) = x - 0x1.4p+1023] on the doubles. *)
Definition shifted (x : float) : float := PrimFloat.sub x 0x1.4p+1023%float.

(** In binary64 the sum [a + b] of the bounds [0x1p+1023] and
    [0x1.8p+1023] overflows: the midpoint, and with it the returned root,
    is infinite and lies outside the bracket. *)
Example midpoint_overflows_in_doubles :
  exists r,
    outcome (bisection (total shifted) 0x1p+1023%float 0x1.8p+1023%float
               0x1p-20%float 1) = Ok r /\
    root r = infinity /\
    PrimFloat.ltb 0x1.8p+1023%float (root r) = true.
Proof. eexists. split; [vm_compute; reflexivity | split; reflexivity]. Qed.

End Runs.

(* ================================================================= *)
(** * The shape of every returned result *)

(** All six loops follow one protocol: each iteration appends one record
    numbered by the loop index, tests it, and either returns it as the
    result or goes on; after the loop the last record is returned. *)

Section Protocol.
Context {F : Type} `{PyFloat F}.

(** The stopping test of each method, on the record of the iteration. *)
Definition stop_test (c : solve_call F) (rec : Iteration F) : bool :=
  match c with
  | Bisection _ _ _ tol _ | Secant _ _ _ tol _ | NewtonRaphson _ _ _ tol _
  | ModifiedSecant _ _ _ tol _ =>
      flt (it_error rec) tol || flt (fabs (it_fxn rec)) tol
  | RegulaFalsi _ _ _ tol _ =>
      flt (fabs (it_fxn rec)) tol || flt (it_error rec) tol
  | FixedPoint _ _ tol _ => flt (it_error rec) tol
  end.

(** The records [1 .. i - 1] of a run that has not stopped, with the locals
    holding the estimate and error of the last one. *)
Definition running (test : Iteration F -> bool) (i : Z)
    (its : list (Iteration F)) (est err : option F) : Prop :=
  Z.of_nat (length its) = i - 1 /\
  (forall k rec, its !! k = Some rec -> it_iteration rec = Z.of_nat k + 1) /\
  Forall (fun rec => test rec = false) its /\
  (i = 1 /\ err = None \/
   exists rec, last its = Some rec /\ est = Some (it_xn rec) /\
               err = Some (it_error rec)).

(** What holds of a returned result. *)
Definition protocol (test : Iteration F -> bool) (n : Z) (r : MethodResult F) : Prop :=
  (forall k rec, iterations r !! k = Some rec -> it_iteration rec = Z.of_nat k + 1) /\
  (exists rec, last (iterations r) = Some rec /\ root r = it_xn rec /\
               error r = it_error rec /\
               (iterations_used r < n -> test rec = true)) /\
  Forall (fun rec => test rec = false) (removelast (iterations r)).

(** One iteration: a record is appended; the loop goes on when it fails the
    test and returns it as the result when it passes. *)
Definition step_spec {St} (test : Iteration F -> bool)
    (its : St -> list (Iteration F)) (est err : St -> option F)
    (i : Z) (s : St) (o : result F (control St (MethodResult F))) : Prop :=
  match o with
  | Ok (Continue s') =>
      exists rec, its s' = its s ++ [rec] /\ it_iteration rec = i /\
                  est s' = Some (it_xn rec) /\ err s' = Some (it_error rec) /\
                  test rec = false
  | Ok (Return r) =>
      exists rec, r = mkMethodResult (its s ++ [rec]) (it_xn rec) (it_error rec) i /\
                  it_iteration rec = i /\ test rec = true
  | _ => True
  end.

Lemma lookup_snoc_index (its : list (Iteration F)) rec0 i :
  Z.of_nat (length its) = i - 1 -> it_iteration rec0 = i ->
  (forall k rec, its !! k = Some rec -> it_iteration rec = Z.of_nat k + 1) ->
  forall k rec, (its ++ [rec0]) !! k = Some rec -> it_iteration rec = Z.of_nat k + 1.
Proof.
  intros Hlen Hi Hall k rec Hk.
  apply lookup_app_Some in Hk as [Hk | [Hge Hk]]; [eauto |].
  destruct (k - length its)%nat eqn:Hd; simpl in Hk; [| discriminate].
  injection Hk as <-. lia.
Qed.

Lemma loop_protocol {St} (body : Z -> St -> M F (control St (MethodResult F)))
    (test : Iteration F -> bool)
    (its : St -> list (Iteration F)) (est err : St -> option F)
    (fin : control St (MethodResult F) -> M F (MethodResult F)) n s0 r :
  (forall i s, step_spec test its est err i s (outcome (body i s))) ->
  its s0 = [] -> err s0 = None ->
  (forall r', fin (Return r') = ret r') ->
  (forall st r', outcome (fin (Continue st)) = Ok r' ->
     exists x e, est st = Some x /\ err st = Some e /\
                 r' = mkMethodResult (its st) x e n) ->
  (out <~ outcome (for_range body (Z.to_nat n) 1 s0) ;; outcome (fin out)) = Ok r ->
  protocol test n r.
Proof.
  intros Hbody Hits Herr Hret Hfin.
  assert (Hstep : forall i s, running test i (its s) (est s) (err s) ->
            match outcome (body i s) with
            | Ok (Continue s') => running test (i + 1) (its s') (est s') (err s')
            | Ok (Return r) => protocol test n r
            | _ => True
            end).
  { intros i s (Hlen & Hidx & Hall & _). specialize (Hbody i s).
    destruct (outcome (body i s)) as [[s' | r'] | |]; simpl in Hbody; try exact I.
    - destruct Hbody as (rec & -> & Hi & -> & -> & Htest). repeat split.
      + rewrite length_app. simpl. lia.
      + eapply lookup_snoc_index; eauto.
      + apply Forall_app. split; [exact Hall | constructor; [exact Htest | constructor]].
      + right. exists rec. rewrite last_snoc. auto.
    - destruct Hbody as (rec & -> & Hi & Htest). repeat split; simpl.
      + eapply lookup_snoc_index; eauto.
      + exists rec. rewrite last_snoc. auto.
      + rewrite removelast_last. exact Hall. }
  assert (Hstart : running test 1 (its s0) (est s0) (err s0)).
  { rewrite Hits, Herr. split; [reflexivity | split; [| split; [constructor |]]].
    - intros k rec Hk. discriminate.
    - left. split; reflexivity. }
  pose proof (for_range_rule body _ (protocol test n) True Hstep (Z.to_nat n) 1 s0
                Hstart) as Hloop.
  destruct (outcome (for_range body (Z.to_nat n) 1 s0)) as [[st | r'] | |];
    cbn [rbind]; try discriminate.
  - intros Hr. destruct (Hfin _ _ Hr) as (x & e & Hx & He & ->).
    destruct Hloop as (Hlen & Hidx & Hall & Hlast). rewrite Hx, He in Hlast.
    repeat split; simpl.
    + exact Hidx.
    + destruct Hlast as [[_ Hnone] | (rec & Hrec & [= ->] & [= ->])];
        [discriminate |].
      exists rec. repeat split; auto. intros Hlt. lia.
    + apply Forall_removelast. exact Hall.
  - rewrite Hret, outcome_ret. intros [= <-]. exact Hloop.
Qed.
Ltac settle_test :=
  repeat match goal with
         | Hq : Ok _ = Ok _ |- _ => injection Hq as ->
         end;
  cbn;
  repeat match goal with
         | Hb : _ = true |- _ => rewrite Hb
         | Hb : _ = false |- _ => rewrite Hb
         end;
  try reflexivity; auto using orb_true_r.

Ltac step_tac :=
  intros ? ?; unfold step_spec; mrun; try exact I;
  match goal with
  | |- context [_ ++ [?R]] => exists R
  end;
  repeat split; settle_test.

Ltac finish_tac :=
  intros ? ?; mrun; try discriminate; intros [= <-]; locals_bound; eauto 6.

Lemma bisection_protocol func a b tol n r :
  outcome (bisection func a b tol n) = Ok r ->
  protocol (stop_test (Bisection func a b tol n)) n r.
Proof.
  unfold bisection. mrun; try discriminate.
  apply loop_protocol with (its := bi_iterations) (est := bi_c) (err := bi_error);
    try reflexivity.
  - unfold bisection_body. step_tac.
  - finish_tac.
Qed.

Lemma regula_falsi_protocol func a b tol n r :
  outcome (regula_falsi func a b tol n) = Ok r ->
  protocol (stop_test (RegulaFalsi func a b tol n)) n r.
Proof.
  unfold regula_falsi. mrun; try discriminate.
  apply loop_protocol with (its := rf_iterations) (est := fun s => Some (rf_c s))
                           (err := rf_error); try reflexivity.
  - unfold regula_falsi_body, py_div. step_tac.
  - finish_tac.
Qed.

Lemma secant_protocol func x0 x1 tol n r :
  outcome (secant func x0 x1 tol n) = Ok r ->
  protocol (stop_test (Secant func x0 x1 tol n)) n r.
Proof.
  unfold secant. mrun.
  apply loop_protocol with (its := se_iterations) (est := fun s => Some (se_curr s))
                           (err := se_error); try reflexivity.
  - unfold secant_body, py_div. step_tac.
  - finish_tac.
Qed.

Lemma newton_raphson_protocol func derivative x0 tol n r :
  outcome (newton_raphson func derivative x0 tol n) = Ok r ->
  protocol (stop_test (NewtonRaphson func derivative x0 tol n)) n r.
Proof.
  unfold newton_raphson. mrun.
  apply loop_protocol with (its := cu_iterations) (est := fun s => Some (cu_current s))
                           (err := cu_error); try reflexivity.
  - unfold newton_raphson_body, py_div. step_tac.
  - unfold finish_current. finish_tac.
Qed.

Lemma fixed_point_protocol g_func x0 tol n r :
  outcome (fixed_point g_func x0 tol n) = Ok r ->
  protocol (stop_test (FixedPoint g_func x0 tol n)) n r.
Proof.
  unfold fixed_point. mrun.
  apply loop_protocol with (its := cu_iterations) (est := fun s => Some (cu_current s))
                           (err := cu_error); try reflexivity.
  - unfold fixed_point_body. step_tac.
  - unfold finish_current. finish_tac.
Qed.

Lemma modified_secant_protocol func x0 delta tol n r :
  outcome (modified_secant func x0 delta tol n) = Ok r ->
  protocol (stop_test (ModifiedSecant func x0 delta tol n)) n r.
Proof.
  unfold modified_secant. mrun; try discriminate.
  apply loop_protocol with (its := cu_iterations) (est := fun s => Some (cu_current s))
                           (err := cu_error); try reflexivity.
  - unfold modified_secant_body, py_div. step_tac.
  - unfold finish_current. finish_tac.
Qed.

Lemma solve_protocol (c : solve_call F) r :
  outcome (solve c) = Ok r -> protocol (stop_test c) (max_iter_of c) r.
Proof.
  destruct c; simpl; intros Hr.
  - exact (bisection_protocol _ _ _ _ _ Hr).
  - exact (regula_falsi_protocol _ _ _ _ _ Hr).
  - exact (secant_protocol _ _ _ _ _ Hr).
  - exact (newton_raphson_protocol _ _ _ _ _ Hr).
  - exact (fixed_point_protocol _ _ _ _ Hr).
  - exact (modified_secant_protocol _ _ _ _ _ Hr).
Qed.

(** X1.  In every result returned by one of the six solve functions the
    records are numbered 1, 2, 3, ... in order: the record at position [k]
    (from 0) has iteration index [k + 1]. *)
Theorem records_are_numbered_in_order (c : solve_call F) (r : MethodResult F)
    (k : nat) (rec : Iteration F) :
  outcome (solve c) = Ok r ->
  iterations r !! k = Some rec ->
  it_iteration rec = Z.of_nat k + 1.
Proof. intros Hr. apply (solve_protocol c Hr). Qed.

(** X2.  The [root] and [error] of every returned result are the estimate
    and the error of its last iteration record, whether the loop stopped
    early or ran out. *)
Theorem result_summarises_last_record (c : solve_call F) (r : MethodResult F) :
  outcome (solve c) = Ok r ->
  exists rec, last (iterations r) = Some rec /\
              root r = it_xn rec /\ error r = it_error rec.
Proof.
  intros Hr. destruct (solve_protocol c Hr) as (_ & (rec & Hl & Hx & He & _) & _).
  eauto.
Qed.

(** X3.  A solve call stops at the first record that meets the stopping test
    of its method: no record before the last meets it, and when fewer than
    [max_iter] iterations were used the last record does. *)
Theorem stops_at_first_converged_record (c : solve_call F) (r : MethodResult F) :
  outcome (solve c) = Ok r ->
  Forall (fun rec => stop_test c rec = false) (removelast (iterations r)) /\
  (iterations_used r < max_iter_of c ->
   exists rec, last (iterations r) = Some rec /\ stop_test c rec = true).
Proof.
  intros Hr. destruct (solve_protocol c Hr) as (_ & (rec & Hl & _ & _ & Ht) & Hall).
  split; [exact Hall | eauto].
Qed.

End Protocol.

(* ================================================================= *)
(** * The update rule of each method *)

(** The records of a returned result follow the recurrence of the method
    from its starting values; the section [FixedPoint] above has this for
    fixed-point iteration, this one for the other five methods. *)

Section UpdateRules.
Context {F : Type} `{PyFloat F}.

(** A run of iterations: from the working state [w], each record and the
    next working state are related by the update rule of the method. *)
Fixpoint chain {W} (rule : W -> Iteration F -> W -> Prop) (w : W)
    (its : list (Iteration F)) : Prop :=
  match its with
  | [] => True
  | rec :: rest => exists w', rule w rec w' /\ chain rule w' rest
  end.

(** [its] leads from [w0] to [w]. *)
Fixpoint leads {W} (rule : W -> Iteration F -> W -> Prop) (w0 : W)
    (its : list (Iteration F)) (w : W) : Prop :=
  match its with
  | [] => w = w0
  | rec :: rest => exists w', rule w0 rec w' /\ leads rule w' rest w
  end.

Lemma leads_snoc {W} (rule : W -> Iteration F -> W -> Prop) w0 its w rec w' :
  leads rule w0 its w -> rule w rec w' -> leads rule w0 (its ++ [rec]) w'.
Proof.
  revert w0. induction its as [| r0 rest IH]; simpl; intros w0.
  - intros -> Hr. eauto.
  - intros (w1 & Hr1 & Hrest) Hr. eauto.
Qed.

Lemma leads_chain {W} (rule : W -> Iteration F -> W -> Prop) w0 its w :
  leads rule w0 its w -> chain rule w0 its.
Proof.
  revert w0. induction its as [| r0 rest IH]; simpl; intros w0; [trivial |].
  intros (w1 & Hr1 & Hrest). eauto.
Qed.

Definition step_rule {St W} (rule : W -> Iteration F -> W -> Prop)
    (its : St -> list (Iteration F)) (work : St -> W)
    (s : St) (o : result F (control St (MethodResult F))) : Prop :=
  match o with
  | Ok (Continue s') =>
      exists rec, its s' = its s ++ [rec] /\ rule (work s) rec (work s')
  | Ok (Return r) =>
      exists rec w', iterations r = its s ++ [rec] /\ rule (work s) rec w'
  | _ => True
  end.

Lemma loop_chain {St W} (rule : W -> Iteration F -> W -> Prop)
    (body : Z -> St -> M F (control St (MethodResult F)))
    (its : St -> list (Iteration F)) (work : St -> W)
    (fin : control St (MethodResult F) -> M F (MethodResult F)) n s0 r :
  (forall i s, step_rule rule its work s (outcome (body i s))) ->
  its s0 = [] ->
  (forall r', fin (Return r') = ret r') ->
  (forall st r', outcome (fin (Continue st)) = Ok r' -> iterations r' = its st) ->
  (out <~ outcome (for_range body n 1 s0) ;; outcome (fin out)) = Ok r ->
  chain rule (work s0) (iterations r).
Proof.
  intros Hbody Hits Hret Hfin.
  assert (Hstep : forall i s, (fun _ s => leads rule (work s0) (its s) (work s)) i s ->
            match outcome (body i s) with
            | Ok (Continue s') => leads rule (work s0) (its s') (work s')
            | Ok (Return r) => chain rule (work s0) (iterations r)
            | _ => True
            end).
  { intros i s Hl. specialize (Hbody i s).
    destruct (outcome (body i s)) as [[s' | r'] | |]; simpl in Hbody; try exact I.
    - destruct Hbody as (rec & -> & Hr). eapply leads_snoc; eauto.
    - destruct Hbody as (rec & w' & -> & Hr).
      eapply leads_chain, leads_snoc; eauto. }
  assert (Hstart : leads rule (work s0) (its s0) (work s0)) by (rewrite Hits; reflexivity).
  pose proof (for_range_rule body _ _ True Hstep n 1 s0 Hstart) as Hloop.
  destruct (outcome (for_range body n 1 s0)) as [[st | r'] | |];
    cbn [rbind]; try discriminate.
  - intros Hr. rewrite (Hfin _ _ Hr). eapply leads_chain; eauto.
  - rewrite Hret, outcome_ret. intros [= <-]. exact Hloop.
Qed.

(** Newton-Raphson: [x' = x - f(x) / f'(x)], error [|x' - x|], recorded
    function value [f(x')]. *)
Definition newton_rule (func derivative : AllowedFunction F)
    (x : F) (rec : Iteration F) (x' : F) : Prop :=
  exists fx dfx,
    func x = Ok fx /\ derivative x = Ok dfx /\ feq dfx (of_int 0) = false /\
    x' = fsub x (fdiv fx dfx) /\
    it_xn rec = x' /\ it_error rec = fabs (fsub x' x) /\ func x' = Ok (it_fxn rec).

Ltac rule_tac :=
  intros ? ?; unfold step_rule; mrun; try exact I;
  repeat match goal with
         | Hp : outcome (if ?b then _ else _) = Ok _ |- _ =>
             destruct b eqn:?; simpl in Hp;
             [discriminate Hp | injection Hp as Hp; subst]
         end;
  match goal with
  | |- context [_ ++ [?R]] => exists R
  end;
  repeat match goal with
         | Hq : Ok _ = Ok _ |- _ => injection Hq as ->
         end;
  cbn;
  repeat match goal with
         | Hb : _ = true |- _ => rewrite Hb
         | Hb : _ = false |- _ => rewrite Hb
         end;
  repeat (first [eexists | split | eassumption | reflexivity]).

Ltac fin_tac :=
  intros ? ?; mrun; try discriminate; intros [= <-]; reflexivity.

(** X4.  The records of a result returned by [newton_raphson] follow
    Newton's rule from [x0]: each estimate is [x - f(x) / f'(x)] for the
    estimate [x] before it ([x0] for the first), where [f'(x)] did not
    compare equal to zero; the recorded error is the distance between the
    two and the recorded function value is [f] at the new estimate. *)
Theorem newton_raphson_follows_tangents func derivative x0 tol max_iter r :
  outcome (newton_raphson func derivative x0 tol max_iter) = Ok r ->
  chain (newton_rule func derivative) x0 (iterations r).
Proof.
  unfold newton_raphson. mrun.
  apply loop_chain with (its := cu_iterations) (work := cu_current)
                        (rule := newton_rule func derivative); try reflexivity.
  - unfold newton_raphson_body, py_div, newton_rule. rule_tac.
  - unfold finish_current. fin_tac.
Qed.

(** Secant: the line through the last two estimates. *)
Definition secant_rule (func : AllowedFunction F)
    (w : F * F) (rec : Iteration F) (w' : F * F) : Prop :=
  let prev := fst w in
  let curr := snd w in
  exists f_prev f_curr,
    func prev = Ok f_prev /\ func curr = Ok f_curr /\
    feq (fsub f_curr f_prev) (of_int 0) = false /\
    it_xn rec =
      fsub curr (fdiv (fmul f_curr (fsub curr prev)) (fsub f_curr f_prev)) /\
    it_error rec = fabs (fsub (it_xn rec) curr) /\
    func (it_xn rec) = Ok (it_fxn rec) /\
    w' = (curr, it_xn rec).

(** X5.  The records of a result returned by [secant] follow the secant
    rule from the pair [(x0, x1)]: each estimate is
    [curr - f(curr) * (curr - prev) / (f(curr) - f(prev))] for the two
    estimates before it, with a denominator that did not compare equal to
    zero, and the pair then moves on to [(curr, estimate)]. *)
Theorem secant_follows_chords func x0 x1 tol max_iter r :
  outcome (secant func x0 x1 tol max_iter) = Ok r ->
  chain (secant_rule func) (x0, x1) (iterations r).
Proof.
  unfold secant. mrun.
  apply loop_chain with (its := se_iterations)
                        (work := fun s => (se_prev s, se_curr s))
                        (rule := secant_rule func); try reflexivity.
  - unfold secant_body, py_div, secant_rule. rule_tac.
  - fin_tac.
Qed.

(** Modified secant: the derivative is replaced by the difference quotient
    over the step [delta * x]. *)
Definition modified_secant_rule (func : AllowedFunction F) (delta : F)
    (x : F) (rec : Iteration F) (x' : F) : Prop :=
  exists fx f_shifted,
    func x = Ok fx /\ func (fadd x (fmul delta x)) = Ok f_shifted /\
    feq (fsub f_shifted fx) (of_int 0) = false /\
    x' = fsub x (fdiv (fmul (fmul delta x) fx) (fsub f_shifted fx)) /\
    it_xn rec = x' /\ it_error rec = fabs (fsub x' x) /\ func x' = Ok (it_fxn rec).

(** X6.  A result returned by [modified_secant] was computed with a [delta]
    that does not compare equal to zero, and its records follow the rule
    [x' = x - delta * x * f(x) / (f(x + delta * x) - f(x))] from [x0], with
    a denominator that did not compare equal to zero. *)
Theorem modified_secant_follows_quotients func x0 delta tol max_iter r :
  outcome (modified_secant func x0 delta tol max_iter) = Ok r ->
  feq delta (of_int 0) = false /\
  chain (modified_secant_rule func delta) x0 (iterations r).
Proof.
  unfold modified_secant. mrun; try discriminate. intros Hr. split; [reflexivity |].
  revert Hr.
  apply loop_chain with (its := cu_iterations) (work := cu_current)
                        (rule := modified_secant_rule func delta); try reflexivity.
  - unfold modified_secant_body, py_div, modified_secant_rule. rule_tac.
  - unfold finish_current. fin_tac.
Qed.

(** Bisection: the midpoint of the bracket [(a, b)], half its width as the
    error; the half [(a, c)] is kept when [fa * f(c) < 0], else [(c, b)]. *)
Definition bisection_rule (func : AllowedFunction F)
    (w : F * F * F) (rec : Iteration F) (w' : F * F * F) : Prop :=
  let '(a, b, fa) := w in
  it_xn rec = fdiv (fadd a b) (of_int 2) /\
  func (it_xn rec) = Ok (it_fxn rec) /\
  it_error rec = fdiv (fabs (fsub b a)) (of_int 2) /\
  w' = if flt (fmul fa (it_fxn rec)) (of_int 0)
       then (a, it_xn rec, fa) else (it_xn rec, b, it_fxn rec).

Lemma bisection_chain func a b tol max_iter r :
  outcome (bisection func a b tol max_iter) = Ok r ->
  exists fa fb,
    func a = Ok fa /\ func b = Ok fb /\ fge (fmul fa fb) (of_int 0) = false /\
    chain (bisection_rule func) (a, b, fa) (iterations r).
Proof.
  unfold bisection. mrun; try discriminate. intros Hr.
  do 2 eexists. repeat split; try eassumption. revert Hr.
  apply loop_chain with (its := bi_iterations)
                        (work := fun s => (bi_a s, bi_b s, bi_fa s))
                        (rule := bisection_rule func); try reflexivity.
  - unfold bisection_body, bisection_rule. rule_tac.
  - fin_tac.
Qed.

(** X7.  A result returned by [bisection] started from a bracket with
    [f(a) * f(b) >= 0] false, and its records follow the bisection rule from
    it: each estimate is the midpoint [(a + b) / 2] of the current bracket,
    the error is half the width [|b - a| / 2], and the bracket moves on to
    [(a, c)] when [fa * f(c) < 0] and to [(c, b)] otherwise. *)
Theorem bisection_halves_the_bracket func a b tol max_iter r :
  outcome (bisection func a b tol max_iter) = Ok r ->
  exists fa fb,
    func a = Ok fa /\ func b = Ok fb /\ fge (fmul fa fb) (of_int 0) = false /\
    chain (bisection_rule func) (a, b, fa) (iterations r).
Proof. apply bisection_chain. Qed.

(** Regula falsi: the zero of the chord through the ends of the bracket,
    the residual as the error, and the same choice of half as bisection. *)
Definition regula_falsi_rule (func : AllowedFunction F)
    (w : F * F * F * F) (rec : Iteration F) (w' : F * F * F * F) : Prop :=
  let '(a, b, fa, fb) := w in
  feq (fsub fb fa) (of_int 0) = false /\
  it_xn rec = fdiv (fsub (fmul a fb) (fmul b fa)) (fsub fb fa) /\
  func (it_xn rec) = Ok (it_fxn rec) /\
  it_error rec = fabs (it_fxn rec) /\
  w' = if flt (fmul fa (it_fxn rec)) (of_int 0)
       then (a, it_xn rec, fa, it_fxn rec) else (it_xn rec, b, it_fxn rec, fb).

(** X8.  A result returned by [regula_falsi] started from a bracket with
    [f(a) * f(b) >= 0] false, and its records follow the rule of false
    position from it: each estimate is [(a * fb - b * fa) / (fb - fa)] for
    the current bracket, the error is [|f(c)|], and the bracket moves on as
    in bisection, with the stored function values. *)
Theorem regula_falsi_follows_chords func a b tol max_iter r :
  outcome (regula_falsi func a b tol max_iter) = Ok r ->
  exists fa fb,
    func a = Ok fa /\ func b = Ok fb /\ fge (fmul fa fb) (of_int 0) = false /\
    chain (regula_falsi_rule func) (a, b, fa, fb) (iterations r).
Proof.
  unfold regula_falsi. mrun; try discriminate. intros Hr.
  do 2 eexists. repeat split; try eassumption. revert Hr.
  apply loop_chain with (its := rf_iterations)
                        (work := fun s => (rf_a s, rf_b s, rf_fa s, rf_fb s))
                        (rule := regula_falsi_rule func); try reflexivity.
  - unfold regula_falsi_body, py_div, regula_falsi_rule. rule_tac.
  - fin_tac.
Qed.

End UpdateRules.

(* ================================================================= *)
(** * Where a failure comes from *)

Section Provenance.
Context {F : Type} `{PyFloat F}.

(** The exceptions a solve function raises by itself, given a positive
    iteration cap. *)
Definition own_errors (c : solve_call F) : list (exn F) :=
  match c with
  | Bisection _ _ _ _ _ =>
      [ValueError "Bisection requires f(a) and f(b) to have opposite signs."]
  | RegulaFalsi _ _ _ _ _ =>
      [ValueError "Regula Falsi requires f(a) and f(b) to have opposite signs.";
       ZeroDivisionError]
  | Secant _ _ _ _ _ =>
      [ValueError "Secant method encountered zero denominator; choose different initial guesses."]
  | NewtonRaphson _ _ _ _ _ =>
      [ValueError "Derivative is zero; Newton-Raphson cannot proceed."]
  | FixedPoint _ _ _ _ => []
  | ModifiedSecant _ _ _ _ _ =>
      [ValueError "Delta must be non-zero for the modified secant method.";
       ValueError "Modified secant encountered zero denominator; adjust delta or initial guess."]
  end.

(** The callables a solve call was given. *)
Definition callables (c : solve_call F) : list (AllowedFunction F) :=
  match c with
  | Bisection func _ _ _ _ | RegulaFalsi func _ _ _ _ | Secant func _ _ _ _
  | ModifiedSecant func _ _ _ _ => [func]
  | NewtonRaphson func derivative _ _ _ => [func; derivative]
  | FixedPoint g_func _ _ _ => [g_func]
  end.

(** An exception that ends [m] is one of [own], or was raised by a logged
    call of one of [given]. *)
Definition sourced {A} (own : list (exn F)) (given : list (AllowedFunction F))
    (m : M F A) : Prop :=
  forall e, outcome m = Raise e ->
    In e own \/ exists g x, In g given /\ In (g, x) (calls m) /\ g x = Raise e.

Lemma sourced_ret {A} own given (a : A) : sourced own given (ret a).
Proof. intros e [=]. Qed.

Lemma sourced_raise {A} own given (e : exn F) :
  In e own -> sourced own given (raise (A := A) e).
Proof. intros Hin e' [= <-]. left. exact Hin. Qed.

Lemma sourced_call own given g x : In g given -> sourced own given (call g x).
Proof.
  intros Hg e He. right. exists g, x.
  split; [exact Hg | split; [left; reflexivity | exact He]].
Qed.

Lemma sourced_bind {A B} own given (m : M F A) (k : A -> M F B) :
  sourced own given m -> (forall a, sourced own given (k a)) ->
  sourced own given (x <- m ;; k x).
Proof.
  intros Hm Hk e. rewrite outcome_bind, calls_bind.
  destruct (outcome m) as [a | e' |] eqn:Hout; cbn [rbind]; try discriminate.
  - intros He. destruct (Hk a e He) as [Hown | (g & x & Hg & Hin & Hr)];
      [left; exact Hown |].
    right. exists g, x.
    split; [exact Hg | split; [apply in_app_iff; right; exact Hin | exact Hr]].
  - intros [= <-]. destruct (Hm e' Hout) as [Hown | (g & x & Hg & Hin & Hr)];
      [left; exact Hown |].
    right. exists g, x. rewrite app_nil_r. auto.
Qed.

Lemma sourced_for_range {St R} own given (body : Z -> St -> M F (control St R)) :
  (forall i s, sourced own given (body i s)) ->
  forall n i s, sourced own given (for_range body n i s).
Proof.
  intros Hbody n. induction n as [| n IH]; intros i s; cbn [for_range].
  - apply sourced_ret.
  - apply sourced_bind; [apply Hbody |].
    intros [s' | r]; [apply IH | apply sourced_ret].
Qed.

(** The loop followed by the final [return], when at least one iteration
    runs: the locals read at the end are bound. *)
Lemma sourced_loop {St} own given
    (body : Z -> St -> M F (control St (MethodResult F)))
    (its : St -> list (Iteration F)) (est err : St -> option F)
    (fin : control St (MethodResult F) -> M F (MethodResult F)) n s0 :
  (forall i s, sourced own given (body i s)) ->
  (forall i s,
     match outcome (body i s) with
     | Ok (Continue s') => tracked (i + 1) (its s') (est s') (err s')
     | _ => True
     end) ->
  1 <= n ->
  (forall r', fin (Return r') = ret r') ->
  (forall st x e, est st = Some x -> err st = Some e ->
     exists r', outcome (fin (Continue st)) = Ok r') ->
  sourced own given (out <- for_range body (Z.to_nat n) 1 s0 ;; fin out).
Proof.
  intros Hbody Htr Hn Hret Hfin e. rewrite outcome_bind, calls_bind.
  destruct (outcome (for_range body (Z.to_nat n) 1 s0)) as [[st | r'] | e' |] eqn:Hout;
    cbn [rbind]; try discriminate.
  - destruct (@loop_tracked F St body its est err n s0 st Htr Hn Hout)
      as (rec & _ & Hx & He).
    destruct (Hfin st _ _ Hx He) as (r' & ->). discriminate.
  - rewrite Hret. discriminate.
  - intros [= <-].
    destruct (@sourced_for_range _ _ own given body Hbody (Z.to_nat n) 1 s0 e' Hout)
      as [Hown | (g & x & Hg & Hin & Hr)]; [left; exact Hown |].
    right. exists g, x. rewrite app_nil_r. auto.
Qed.

Ltac sourced_tac :=
  repeat first
    [ apply sourced_ret
    | apply sourced_call; simpl; tauto
    | apply sourced_raise; simpl; tauto
    | apply sourced_bind; [| intros ?]
    | match goal with
      | |- sourced _ _ (if ?b then _ else _) => destruct b
      | |- sourced _ _ (match ?c with _ => _ end) => destruct c
      end ].

Ltac tracked_tac := intros ? ?; mrun; try apply tracked_snoc; exact I.

Ltac final_tac :=
  intros ? ? ? Hx He; cbn in Hx |- *; rewrite ?Hx, ?He;
  try injection Hx as ->; eexists; reflexivity.

Lemma solve_sourced (c : solve_call F) :
  1 <= max_iter_of c -> sourced (own_errors c) (callables c) (solve c).
Proof.
  destruct c as [f a b tol n | f a b tol n | f x0 x1 tol n | f f' x0 tol n
                | g x0 tol n | f x0 delta tol n]; simpl; intros Hn.
  - unfold bisection.
    apply sourced_bind; [apply sourced_call; simpl; tauto | intros fa].
    apply sourced_bind; [apply sourced_call; simpl; tauto | intros fb].
    destruct (fge _ _); [apply sourced_raise; simpl; tauto |].
    apply sourced_loop with (its := bi_iterations) (est := bi_c) (err := bi_error);
      try assumption; try reflexivity.
    + intros i s. unfold bisection_body. sourced_tac.
    + unfold bisection_body. tracked_tac.
    + final_tac.
  - unfold regula_falsi.
    apply sourced_bind; [apply sourced_call; simpl; tauto | intros fa].
    apply sourced_bind; [apply sourced_call; simpl; tauto | intros fb].
    destruct (fge _ _); [apply sourced_raise; simpl; tauto |].
    apply sourced_loop with (its := rf_iterations) (est := fun s => Some (rf_c s))
                            (err := rf_error); try assumption; try reflexivity.
    + intros i s. unfold regula_falsi_body, py_div. sourced_tac.
    + unfold regula_falsi_body, py_div. tracked_tac.
    + final_tac.
  - unfold secant.
    apply sourced_loop with (its := se_iterations) (est := fun s => Some (se_curr s))
                            (err := se_error); try assumption; try reflexivity.
    + intros i s. unfold secant_body, py_div. sourced_tac.
    + unfold secant_body, py_div. tracked_tac.
    + final_tac.
  - unfold newton_raphson.
    apply sourced_loop with (its := cu_iterations) (est := fun s => Some (cu_current s))
                            (err := cu_error); try assumption; try reflexivity.
    + intros i s. unfold newton_raphson_body, py_div. sourced_tac.
    + unfold newton_raphson_body, py_div. tracked_tac.
    + unfold finish_current. final_tac.
  - unfold fixed_point.
    apply sourced_loop with (its := cu_iterations) (est := fun s => Some (cu_current s))
                            (err := cu_error); try assumption; try reflexivity.
    + intros i s. unfold fixed_point_body. sourced_tac.
    + unfold fixed_point_body. tracked_tac.
    + unfold finish_current. final_tac.
  - unfold modified_secant.
    destruct (feq delta _); [apply sourced_raise; simpl; tauto |].
    apply sourced_loop with (its := cu_iterations) (est := fun s => Some (cu_current s))
                            (err := cu_error); try assumption; try reflexivity.
    + intros i s. unfold modified_secant_body, py_div. sourced_tac.
    + unfold modified_secant_body, py_div. tracked_tac.
    + unfold finish_current. final_tac.
Qed.

(** X9.  With a positive iteration cap, an exception that ends a solve call
    is either one the method raises itself (the bracket, zero-denominator,
    zero-derivative and zero-delta [ValueError]s, and for [regula_falsi]
    the division by [fb - fa]), or was raised by a call the run made of one
    of the functions it was given.  Nothing else is raised: in particular
    no unbound local. *)
Theorem solvers_raise_only_their_own_errors (c : solve_call F) (e : exn F) :
  1 <= max_iter_of c ->
  outcome (solve c) = Raise e ->
  In e (own_errors c) \/
  exists g x, In g (callables c) /\ In (g, x) (calls (solve c)) /\ g x = Raise e.
Proof. intros Hn He. exact (solve_sourced c Hn He). Qed.

End Provenance.

(* ================================================================= *)
(** * How often the user's functions are called *)

Ltac crun :=
  repeat first
    [ rewrite outcome_bind | rewrite calls_bind | rewrite outcome_call
    | rewrite outcome_ret | rewrite outcome_raise
    | progress cbn [rbind calls fst ret raise call]
    | match goal with
      | |- context [rbind ?t _] =>
          lazymatch t with
          | context [for_range] => fail
          | _ => destruct t eqn:?
          end
      | |- context [if ?b then _ else _] => destruct b eqn:?
      end ].

Section Evaluations.
Context {F : Type} `{PyFloat F}.
Local Open Scope nat_scope.

(** The least and the greatest number of calls of the user's functions in
    a run that returns [n] records: two before the loop of the bracketing
    methods; four in an iteration of the secant-like methods, the last of
    which saves one when its first test stops the loop. *)
Definition least_calls (c : solve_call F) (n : nat) : nat :=
  match c with
  | Bisection _ _ _ _ _ | RegulaFalsi _ _ _ _ _ => 2 + n
  | FixedPoint _ _ _ _ => n
  | Secant _ _ _ _ _ | NewtonRaphson _ _ _ _ _ | ModifiedSecant _ _ _ _ _ =>
      4 * n - 1
  end.

Definition most_calls (c : solve_call F) (n : nat) : nat :=
  match c with
  | Bisection _ _ _ _ _ | RegulaFalsi _ _ _ _ _ => 2 + n
  | FixedPoint _ _ _ _ => n
  | Secant _ _ _ _ _ | NewtonRaphson _ _ _ _ _ | ModifiedSecant _ _ _ _ _ =>
      4 * n
  end.

Lemma calls_local {A} var (v : option A) : calls (local (F := F) var v) = [].
Proof. destruct v; reflexivity. Qed.

(** [m] adds [k] records to the [before] there were: with [hi] calls for
    each when the loop goes on, and at least [lo] for the last when it
    returns. *)
Definition counts {St} (lo hi : nat) (its : St -> list (Iteration F))
    (before : nat) (m : M F (control St (MethodResult F))) : Prop :=
  match outcome m with
  | Ok (Continue s') =>
      before <= length (its s') /\
      length (calls m) = hi * (length (its s') - before)
  | Ok (Return r) =>
      before < length (iterations r) /\
      hi * (length (iterations r) - before - 1) + lo <= length (calls m)
        <= hi * (length (iterations r) - before)
  | _ => True
  end.

Definition one_more {St} (its : St -> list (Iteration F))
    (before : nat) (m : M F (control St (MethodResult F))) : Prop :=
  match outcome m with
  | Ok (Continue s') => length (its s') = S before
  | Ok (Return r) => length (iterations r) = S before
  | _ => True
  end.

Lemma for_range_counts {St} lo hi (its : St -> list (Iteration F))
    (body : Z -> St -> M F (control St (MethodResult F))) :
  (forall i s, counts lo hi its (length (its s)) (body i s) /\
               one_more its (length (its s)) (body i s)) ->
  forall n i s, counts lo hi its (length (its s)) (for_range body n i s).
Proof.
  intros Hbody n. induction n as [| n IH]; intros i s; cbn [for_range].
  - unfold counts. rewrite outcome_ret. cbn. lia.
  - destruct (Hbody i s) as [Hc Hone]. unfold counts, one_more in *.
    rewrite outcome_bind, calls_bind.
    destruct (outcome (body i s)) as [[s' | r] | e |]; cbn [rbind]; try exact I.
    + specialize (IH (i + 1)%Z s').
      destruct (outcome (for_range body n (i + 1) s')) as [[s'' | r] | e |];
        try exact I; rewrite length_app; nia.
    + rewrite outcome_ret. cbn [calls fst ret]. rewrite app_nil_r. exact Hc.
Qed.

Ltac count_body :=
  intros ? ?; unfold counts, one_more; crun;
  cbn -[Nat.mul Nat.sub]; rewrite ?length_app; cbn [length app];
  repeat split; try exact I; try lia.

Lemma bisection_body_counts f tol i s :
  counts 1 1 bi_iterations (length (bi_iterations s)) (bisection_body f tol i s) /\
  one_more bi_iterations (length (bi_iterations s)) (bisection_body f tol i s).
Proof. revert i s. unfold bisection_body. count_body. Qed.

Ltac count_loop lo hi its Hbody :=
  match goal with
  | |- context [outcome (for_range ?b ?n ?i ?s)] =>
      pose proof (@for_range_counts _ lo hi its b Hbody n i s) as Hloop;
      unfold counts in Hloop;
      destruct (outcome (for_range b n i s)) as [[st | r'] | e |];
      cbn [rbind]; crun; try discriminate
  end.

Lemma regula_falsi_body_counts f tol i s :
  counts 1 1 rf_iterations (length (rf_iterations s)) (regula_falsi_body f tol i s) /\
  one_more rf_iterations (length (rf_iterations s)) (regula_falsi_body f tol i s).
Proof. revert i s. unfold regula_falsi_body, py_div. count_body. Qed.

Lemma secant_body_counts f tol i s :
  counts 3 4 se_iterations (length (se_iterations s)) (secant_body f tol i s) /\
  one_more se_iterations (length (se_iterations s)) (secant_body f tol i s).
Proof. revert i s. unfold secant_body, py_div. count_body. Qed.

Lemma newton_raphson_body_counts f d tol i s :
  counts 3 4 cu_iterations (length (cu_iterations s)) (newton_raphson_body f d tol i s) /\
  one_more cu_iterations (length (cu_iterations s)) (newton_raphson_body f d tol i s).
Proof. revert i s. unfold newton_raphson_body, py_div. count_body. Qed.

Lemma fixed_point_body_counts g tol i s :
  counts 1 1 cu_iterations (length (cu_iterations s)) (fixed_point_body g tol i s) /\
  one_more cu_iterations (length (cu_iterations s)) (fixed_point_body g tol i s).
Proof. revert i s. unfold fixed_point_body. count_body. Qed.

Lemma modified_secant_body_counts f delta tol i s :
  counts 3 4 cu_iterations (length (cu_iterations s))
    (modified_secant_body f delta tol i s) /\
  one_more cu_iterations (length (cu_iterations s))
    (modified_secant_body f delta tol i s).
Proof. revert i s. unfold modified_secant_body, py_div. count_body. Qed.

Ltac count_run lo hi its Hbody :=
  crun; try discriminate;
  count_loop lo hi its Hbody;
  intros [= <-]; rewrite ?length_app, ?calls_local;
  cbn -[Nat.mul Nat.sub] in *; lia.

(** X10.  The number of calls of the user's functions in a run that
    returns is fixed by the number of records [n] of the result:
    [2 + n] for [bisection] and [regula_falsi], [n] for [fixed_point],
    and [4 * n] or [4 * n - 1] for [secant], [newton_raphson] and
    [modified_secant], which evaluate [func(next_x)] a second time for the
    residual test unless the error test already stopped the loop. *)
Theorem evaluations_grow_with_records (c : solve_call F) (r : MethodResult F) :
  outcome (solve c) = Ok r ->
  least_calls c (length (iterations r)) <= length (calls (solve c))
    <= most_calls c (length (iterations r)).
Proof.
  destruct c as [f a b tol n | f a b tol n | f x0 x1 tol n
                | f d x0 tol n | g x0 tol n | f x0 delta tol n];
    cbn [solve least_calls most_calls].
  - unfold bisection.
    count_run 1 1 (@bi_iterations F) (bisection_body_counts f tol).
  - unfold regula_falsi.
    count_run 1 1 (@rf_iterations F) (regula_falsi_body_counts f tol).
  - unfold secant.
    count_run 3 4 (@se_iterations F) (secant_body_counts f tol).
  - unfold newton_raphson, finish_current.
    count_run 3 4 (@cu_iterations F) (newton_raphson_body_counts f d tol).
  - unfold fixed_point, finish_current.
    count_run 1 1 (@cu_iterations F) (fixed_point_body_counts g tol).
  - unfold modified_secant, finish_current.
    count_run 3 4 (@cu_iterations F) (modified_secant_body_counts f delta tol).
Qed.

End Evaluations.

(* ================================================================= *)
(** * Bisection in exact arithmetic: the error halves *)

Section Halving.
Local Open Scope Q_scope.

(** The width [w] halved [k] times. *)
Definition halved (w : Q) (k : nat) : Q := w / inject_Z (2 ^ Z.of_nat k).

Lemma power_of_two_positive k : 0 < inject_Z (2 ^ Z.of_nat k).
Proof.
  change 0 with (inject_Z 0). rewrite <- Zlt_Qlt. apply Z.pow_pos_nonneg; lia.
Qed.

Lemma halved_S w k : halved w (S k) == halved w k / 2.
Proof.
  unfold halved. pose proof (power_of_two_positive k) as Hk.
  rewrite Nat2Z.inj_succ, Z.pow_succ_r by lia. rewrite inject_Z_mult.
  change (inject_Z 2) with 2. field. lra.
Qed.

Lemma halved_half w k : halved (w / 2) k == halved w (S k).
Proof.
  rewrite halved_S. unfold halved. pose proof (power_of_two_positive k) as Hk.
  field. lra.
Qed.

Lemma halved_proper w w' k : w == w' -> halved w k == halved w' k.
Proof. intros Hw. unfold halved. rewrite Hw. reflexivity. Qed.

Lemma half_width_left a b : Qabs ((a + b) / 2 - a) == Qabs (b - a) / 2.
Proof.
  assert (Hc : (a + b) / 2 - a == (b - a) * (1 # 2)) by field.
  rewrite Hc, Qabs_Qmult. change (Qabs (1 # 2)) with (1 # 2). field.
Qed.

Lemma half_width_right a b : Qabs (b - (a + b) / 2) == Qabs (b - a) / 2.
Proof.
  assert (Hc : b - (a + b) / 2 == (b - a) * (1 # 2)) by field.
  rewrite Hc, Qabs_Qmult. change (Qabs (1 # 2)) with (1 # 2). field.
Qed.

(** Along the records of a bisection, the error of record [k] is the width
    of the first bracket halved [k + 1] times, and the recorded function
    value is [f] at the recorded estimate. *)
Lemma chain_halves (f : AllowedFunction Q) (its : list (Iteration Q)) :
  forall a b fa k rec,
    chain (bisection_rule f) (a, b, fa) its -> its !! k = Some rec ->
    it_error rec == halved (Qabs (b - a)) (S k) /\
    f (it_xn rec) = Ok (it_fxn rec).
Proof.
  induction its as [| rec0 rest IH]; intros a b fa k rec Hchain Hk; [discriminate |].
  destruct Hchain as (w' & (Hx & Hf & He & Hw) & Hrest).
  destruct k as [| k]; simpl in Hk.
  - injection Hk as <-. split; [| exact Hf].
    rewrite He. unfold halved. cbn. reflexivity.
  - subst w'. destruct (flt _ _).
    + destruct (IH _ _ _ _ _ Hrest Hk) as [Herr Hfx]. split; [| exact Hfx].
      rewrite Herr, Hx. cbn [fdiv fadd of_int Q_PyFloat].
      change (inject_Z 2) with 2.
      rewrite (halved_proper (S k) (half_width_left a b)). apply halved_half.
    + destruct (IH _ _ _ _ _ Hrest Hk) as [Herr Hfx]. split; [| exact Hfx].
      rewrite Herr, Hx. cbn [fdiv fadd of_int Q_PyFloat].
      change (inject_Z 2) with 2.
      rewrite (halved_proper (S k) (half_width_right a b)). apply halved_half.
Qed.

(** X11.  In exact arithmetic the error recorded by [bisection] at
    iteration [k + 1] is the width of the starting bracket halved [k + 1]
    times, [|b - a| / 2^(k+1)], whatever the function is. *)
Theorem bisection_error_halves (f : AllowedFunction Q) (a b tol : Q) (n : Z)
    (r : MethodResult Q) (k : nat) (rec : Iteration Q) :
  outcome (bisection f a b tol n) = Ok r ->
  iterations r !! k = Some rec ->
  it_error rec == halved (Qabs (b - a)) (S k).
Proof.
  intros Hr Hk. destruct (bisection_chain _ _ _ _ _ Hr) as (fa & fb & _ & _ & _ & Hc).
  exact (proj1 (@chain_halves f (iterations r) a b fa k rec Hc Hk)).
Qed.

Lemma lookup_removelast {A} (l : list A) k x :
  l !! k = Some x -> (S k < length l)%nat -> removelast l !! k = Some x.
Proof.
  intros Hk Hlt. destruct (@exists_last _ l) as (l' & y & ->).
  { intros ->. simpl in Hlt. lia. }
  rewrite removelast_last. rewrite length_app in Hlt. simpl in Hlt.
  rewrite lookup_app_l in Hk by lia. exact Hk.
Qed.

(** X12.  In exact arithmetic, for a function defined everywhere and a
    bracket with [f(a) * f(b) < 0]: if halving the width [|b - a|] [m]
    times brings it below the tolerance and [1 <= m <= max_iter], then
    [bisection] returns within [m] iterations, and the result it returns
    meets the tolerance: [error < tol] or [|f(root)| < tol]. *)
Theorem bisection_meets_tolerance (g : Q -> Q) (a b tol : Q) (n : Z) (m : nat) :
  g a * g b < 0 ->
  (1 <= Z.of_nat m <= n)%Z ->
  halved (Qabs (b - a)) m < tol ->
  exists r,
    outcome (bisection (total g) a b tol n) = Ok r /\
    (iterations_used r <= Z.of_nat m)%Z /\
    (error r < tol \/ Qabs (g (root r)) < tol).
Proof.
  intros Hsign Hm Htol.
  destruct (@bisection_brackets g a b tol n Hsign ltac:(lia)) as (r & Hr & _).
  exists r. split; [exact Hr |].
  destruct (bisection_counted _ _ _ _ _ Hr) as [Hlen _].
  destruct (bisection_protocol _ _ _ _ _ Hr)
    as (_ & (rec & Hlast & Hroot & Herr & Hstop) & Hbefore).
  destruct (bisection_chain _ _ _ _ _ Hr) as (fa & fb & _ & _ & _ & Hc).
  assert (Hupper : (iterations_used r <= Z.of_nat m)%Z).
  { destruct (Z_le_gt_dec (iterations_used r) (Z.of_nat m)) as [Hle | Hgt];
      [exact Hle | exfalso].
    destruct m as [| m]; [lia |].
    destruct (lookup_lt_is_Some_2 (iterations r) m ltac:(lia)) as (rec' & Hrec').
    assert (Hin : removelast (iterations r) !! m = Some rec')
      by (apply lookup_removelast; [exact Hrec' | lia]).
    rewrite Forall_lookup in Hbefore. specialize (Hbefore _ _ Hin).
    cbn [stop_test] in Hbefore. apply orb_false_iff in Hbefore as [Hbefore _].
    apply flt_Q_false in Hbefore.
    destruct (@chain_halves _ _ a b fa _ _ Hc Hrec') as [Hhalf _].
    rewrite Hhalf in Hbefore. lra. }
  split; [exact Hupper |].
  rewrite last_lookup in Hlast.
  destruct (@chain_halves _ _ a b fa _ _ Hc Hlast) as [Hhalf Hfx].
  injection Hfx as Hfx. rewrite Hroot, Herr.
  destruct (Z_lt_ge_dec (iterations_used r) n) as [Hlt | Hge].
  - specialize (Hstop Hlt). cbn [stop_test] in Hstop.
    apply orb_true_iff in Hstop as [Ht | Ht]; apply flt_Q in Ht.
    + left. exact Ht.
    + right. rewrite Hfx. exact Ht.
  - left. rewrite Hhalf.
    assert (Hidx : S (Init.Nat.pred (length (iterations r))) = m) by lia.
    rewrite Hidx. exact Htol.
Qed.

End Halving.

Section HalvingRuns.
Local Open Scope Q_scope.

Lemma bisection_error_halves_witness :
  exists r rec,
    outcome (bisection (total square_minus_two) 0 2 (1 # 8) 3) = Ok r /\
    iterations r !! 2%nat = Some rec /\
    it_error rec == halved (Qabs (2 - 0)) 3.
Proof.
  eexists. eexists. split; [vm_compute; reflexivity |].
  split; [vm_compute; reflexivity |].
  eapply bisection_error_halves
    with (f := total square_minus_two) (a := 0) (b := 2) (tol := 1 # 8) (n := 3%Z)
         (k := 2%nat);
    vm_compute; reflexivity.
Defined.

(** [2 / 2^5 = 1/16 < 1/8]: at most five of the ten iterations are used. *)
Lemma bisection_meets_tolerance_witness :
  exists r,
    outcome (bisection (total square_minus_two) 0 2 (1 # 8) 10) = Ok r /\
    (iterations_used r <= Z.of_nat 5)%Z /\
    (error r < 1 # 8 \/ Qabs (square_minus_two (root r)) < 1 # 8).
Proof.
  apply (@bisection_meets_tolerance square_minus_two 0 2 (1 # 8) 10 5).
  - vm_compute. reflexivity.
  - lia.
  - vm_compute. reflexivity.
Defined.

End HalvingRuns.

(* ================================================================= *)
(** * More on parse_function *)

Section Stripping.

(** Strings that hold white space only. *)
Definition blank (s : string) : Prop :=
  forallb is_space (list_ascii_of_string s) = true.

Lemma lstrip_blank (l : list ascii) : forallb is_space l = true -> lstrip l = [].
Proof.
  induction l as [| c l IH]; simpl; [reflexivity |].
  intros Hl. apply andb_true_iff in Hl as [Hc Hl]. rewrite Hc. auto.
Qed.

Lemma lstrip_app_blank (pre l : list ascii) :
  forallb is_space pre = true -> lstrip (pre ++ l) = lstrip l.
Proof.
  induction pre as [| c pre IH]; simpl; [reflexivity |].
  intros Hl. apply andb_true_iff in Hl as [Hc Hl]. rewrite Hc. auto.
Qed.

Lemma lstrip_app (l post : list ascii) :
  lstrip l <> [] -> lstrip (l ++ post) = lstrip l ++ post.
Proof.
  induction l as [| c l IH]; simpl; [congruence |].
  destruct (is_space c); [exact IH | reflexivity].
Qed.

Lemma lstrip_all_blank (l : list ascii) : lstrip l = [] -> forallb is_space l = true.
Proof.
  induction l as [| c l IH]; simpl; [reflexivity |].
  destruct (is_space c); [exact IH | discriminate].
Qed.

Lemma forallb_rev {A} (p : A -> bool) (l : list A) :
  forallb p l = true -> forallb p (rev l) = true.
Proof.
  rewrite !forallb_forall. intros Hl x Hx. apply Hl, in_rev. exact Hx.
Qed.

Lemma list_ascii_of_append (s t : string) :
  list_ascii_of_string (String.append s t) =
  list_ascii_of_string s ++ list_ascii_of_string t.
Proof. induction s as [| c s IH]; simpl; [reflexivity | rewrite IH; reflexivity]. Qed.

Lemma strip_blank (s : string) : blank s -> strip s = EmptyString.
Proof. unfold blank, strip. intros Hs. rewrite (@lstrip_blank _ Hs). reflexivity. Qed.

Lemma strip_surrounded (pre s post : string) :
  blank pre -> blank post ->
  strip (String.append pre (String.append s post)) = strip s.
Proof.
  unfold blank, strip. intros Hpre Hpost. f_equal. f_equal.
  rewrite !list_ascii_of_append, (@lstrip_app_blank _ _ Hpre).
  set (l := list_ascii_of_string s). set (p := list_ascii_of_string post) in *.
  destruct (lstrip l) as [| c l'] eqn:Hl.
  - apply lstrip_all_blank in Hl. rewrite (@lstrip_blank (l ++ p)); [reflexivity |].
    rewrite forallb_app, Hl. exact Hpost.
  - rewrite lstrip_app by congruence. rewrite Hl, rev_app_distr.
    apply lstrip_app_blank, forallb_rev, Hpost.
Qed.

End Stripping.

Section ParseFunctionProperties.
Context {F : Type} `{PyFloat F} `{PyMath F}.

(** X13.  An expression that holds white space only (or nothing) is
    rejected by [parse_function] with "Expression cannot be empty.",
    before anything is compiled. *)
Theorem blank_expression_is_rejected (expression : string) :
  blank expression ->
  parse_function (F := F) expression = Raise (FunctionParserError ExpressionEmpty).
Proof.
  intros Hs. unfold parse_function. rewrite strip_blank by exact Hs. reflexivity.
Qed.

(** X14.  White space around an expression does not matter:
    [parse_function] gives the same outcome, and when it succeeds the same
    Function, with and without it. *)
Theorem surrounding_whitespace_is_ignored (pre expression post : string) :
  blank pre -> blank post ->
  parse_function (F := F) (String.append pre (String.append expression post)) =
  parse_function expression.
Proof.
  intros Hpre Hpost. unfold parse_function.
  rewrite strip_surrounded by assumption. reflexivity.
Qed.

Lemma parse_function_raises (expression : string) (e : exn F) :
  parse_function expression = Raise e ->
  e = FunctionParserError ExpressionEmpty \/
  e = FunctionParserError (InvalidExpression SyntaxError).
Proof.
  unfold parse_function. destruct (String.eqb _ _); [intros [= <-]; auto |].
  unfold py_compile. destruct (lex _ _) as [ts |]; [| discriminate].
  destruct (parse_eval_input ts); try discriminate. intros [= <-]. auto.
Qed.

(** An exception that [float(value)] raises for some value. *)
Definition conversion_error (e : exn F) : Prop :=
  exists value : value F, py_float value = Raise e.

Lemma parsed_function_raises (expression : string) (f : AllowedFunction F) x e :
  parse_function expression = Ok f -> f x = Raise e ->
  (exists cause, e = FunctionParserError (ErrorEvaluatingAt x cause)) \/
  e = FunctionParserError ComplexResult \/
  conversion_error e.
Proof.
  intros Hparse. apply parse_function_Ok in Hparse as (compiled & _ & ->).
  unfold func.
  destruct (eval _ _ _ compiled) as [v | cause |]; [| intros [= <-]; eauto | discriminate].
  destruct (is_complex v); [intros [= <-]; auto |].
  intros Hv. right. right. exists v. exact Hv.
Qed.

(** X15.  A call of a Function made by [parse_function] either returns a
    float, or raises one of three exceptions: the [FunctionParserError]
    that carries the argument [x] and the cause, when the evaluation
    raised; the [FunctionParserError] of a complex result; or what
    [float(value)] raises for the value of the expression.  Whatever the
    evaluation itself raises is wrapped. *)
Theorem function_raises_three_errors (expression : string)
    (f : AllowedFunction F) (x : F) (e : exn F) :
  parse_function expression = Ok f ->
  f x = Raise e ->
  (exists cause, e = FunctionParserError (ErrorEvaluatingAt x cause)) \/
  e = FunctionParserError ComplexResult \/
  conversion_error e.
Proof. apply parsed_function_raises. Qed.





End ParseFunctionProperties.

(* ================================================================= *)
(** * The front ends *)

(** What the two front ends need of Python beyond arithmetic: the
    conversions [float(s)] and [int(s)] of a string, which raise
    [ValueError] ([None] here) on text they do not accept, [int(x)] of a
    float, and [str(exc)].  They are left abstract: every property below
    holds for any choice of them. *)
Inductive int_of_float_result : Type :=
| Truncated (n : Z)
| NotANumber          (* ValueError: cannot convert float NaN to integer *)
| Infinite.           (* OverflowError: cannot convert float infinity to integer *)

Class PyText (F : Type) := {
  float_of_str : string -> option F;
  int_of_str : string -> option Z;
  int_of_float : F -> int_of_float_result;
  str_of_exn : exn F -> string
}.

Section Handlers.
Context {F : Type}.

(** [except ValueError]: [FunctionParserError] is declared as a subclass of
    [ValueError], so both handlers of the front ends catch it. *)
Definition is_value_error (e : exn F) : bool :=
  match e with
  | ValueError _ | FunctionParserError _ => true
  | _ => false
  end.


End Handlers.

(* ================================================================= *)
(** * Which failures the front ends catch *)

Section HandledFailures.
Context {F : Type} `{PyFloat F} `{PyMath F}.

(** A Function made by [parse_function]. *)
Definition parsed_function (g : AllowedFunction F) : Prop :=
  exists expression, parse_function expression = Ok g.

(** The method names both front ends dispatch on. *)
Definition method_names : list string :=
  [ "bisection"; "regula_falsi"; "secant"; "newton_raphson"; "fixed_point";
    "modified_secant" ]%string.

(** The method a solve call runs. *)
Definition method_name (c : solve_call F) : string :=
  match c with
  | Bisection _ _ _ _ _ => "bisection"
  | RegulaFalsi _ _ _ _ _ => "regula_falsi"
  | Secant _ _ _ _ _ => "secant"
  | NewtonRaphson _ _ _ _ _ => "newton_raphson"
  | FixedPoint _ _ _ _ => "fixed_point"
  | ModifiedSecant _ _ _ _ _ => "modified_secant"
  end.

(** What holds of the call a front end makes for [method_key]. *)
Definition requested (method_key : string) (max_iterations : Z)
    (c : solve_call F) : Prop :=
  method_name c = method_key /\ max_iter_of c = max_iterations /\
  Forall parsed_function (callables c).

Lemma parsed_raises g x e :
  parsed_function g -> g x = Raise e -> is_value_error e = true \/ conversion_error e.
Proof.
  intros [expression Hg] He.
  destruct (parsed_function_raises _ _ Hg He) as [[cause ->] | [-> | Hc]]; auto.
Qed.

Lemma solve_failures (c : solve_call F) (e : exn F) :
  1 <= max_iter_of c ->
  Forall parsed_function (callables c) ->
  outcome (solve c) = Raise e ->
  is_value_error e = true \/ conversion_error e \/
  (e = ZeroDivisionError /\ method_name c = "regula_falsi"%string).
Proof.
  intros Hn Hparsed Hout.
  destruct (solve_sourced c Hn Hout) as [Hown | (g & x & Hg & _ & Hr)].
  - destruct c as [f a b tol n | f a b tol n | f x0 x1 tol n | f f' x0 tol n
                  | g x0 tol n | f x0 delta tol n]; simpl in Hown;
      repeat match goal with
             | Ho : _ \/ _ |- _ => destruct Ho as [<- | Ho]
             | Ho : False |- _ => destruct Ho
             end; auto.
  - rewrite List.Forall_forall in Hparsed.
    destruct (parsed_raises x (Hparsed g Hg) Hr); auto.
Qed.

(** X17.  When the functions handed to a solver were made by
    [parse_function] and [max_iter >= 1], an exception that ends the solve
    call is a [ValueError] ([FunctionParserError] is declared as a
    subclass of it), which both front ends catch and report, with two
    exceptions: what [float(value)] raises for the value of an expression
    (the [TypeError] for a value that is no number), and the
    [ZeroDivisionError] of [regula_falsi]. *)
Theorem solver_failures_are_value_errors (c : solve_call F) (e : exn F) :
  1 <= max_iter_of c ->
  Forall parsed_function (callables c) ->
  outcome (solve c) = Raise e ->
  is_value_error e = true \/ conversion_error e \/
  (e = ZeroDivisionError /\ method_name c = "regula_falsi"%string).
Proof. apply solve_failures. Qed.

End HandledFailures.

(* ================================================================= *)
(** * The callers: ZOF_CLI.py *)

(** [str.lower()] on ASCII. *)
Definition lower_ascii (c : ascii) : ascii :=
  if in_range 65 90 c then ascii_of_nat (nat_of_ascii c + 32) else c.

Definition lower (s : string) : string :=
  string_of_list_ascii (map lower_ascii (list_ascii_of_string s)).


Section CommandLine.
Context {F : Type} `{PyFloat F} `{PyMath F} `{PyText F}.

(** What [display_result] prints: the table laid out by [tabulate] and the
    three summary lines. *)
Variable display_result : MethodResult F -> list string.

(** A console program reads lines from standard input and prints.  It
    ends with a value, or is stopped: [input()] at the end of the input
    raises [EOFError]; an exception of the solvers may go uncaught. *)
Inductive interruption : Type :=
| EOFError
| Uncaught (e : exn F)
| NotInterpreted.

Inductive io_result (A : Type) : Type :=
| Got (a : A)
| Stopped (why : interruption).

Arguments Got {A} a.
Arguments Stopped {A} why.

Record io_state (A : Type) : Type := mk_io {
  io_value : io_result A;
  io_unread : list string;
  io_printed : list string
}.





(** What was printed before a loop went round again. *)
Definition after {A} (printed : list string) (s : io_state A) : io_state A :=
  mk_io (io_value s) (io_unread s) (printed ++ io_printed s).







Fixpoint prompt_int (message : string) (lines : list string) : io_state Z :=
  match lines with
  | [] => mk_io (Stopped EOFError) [] [message]
  | line :: rest =>
      match int_of_str line with
      | Some value =>
          if value <=? 0 then
            after [message; "Invalid integer. Please enter a positive integer."]
              (prompt_int message rest)
          else mk_io (Got value) rest [message]
      | None =>
          after [message; "Invalid integer. Please enter a positive integer."]
            (prompt_int message rest)
      end
  end.










(* ----------------------------------------------------------------- *)
(** *** Properties *)













(** *** The prompts *)

(** A line [prompt_int] does not accept. *)
Definition no_positive_integer (line : string) : Prop :=
  forall value, int_of_str line = Some value -> value <= 0.

Definition complaints (message complaint : string) (rejected : list string)
  : list string :=
  concat (map (fun _ => [message; complaint]) rejected).

Lemma prompt_int_spec (message : string) (lines : list string) :
  match io_value (prompt_int message lines) with
  | Got value =>
      0 < value /\
      exists rejected line,
        lines = rejected ++ line :: io_unread (prompt_int message lines) /\
        int_of_str line = Some value /\
        Forall no_positive_integer rejected /\
        io_printed (prompt_int message lines) =
          complaints message "Invalid integer. Please enter a positive integer."
            rejected ++ [message]
  | Stopped EOFError =>
      Forall no_positive_integer lines /\
      io_unread (prompt_int message lines) = []
  | Stopped _ => False
  end.
Proof.
  induction lines as [| line rest IH]; cbn [prompt_int].
  - cbn. split; [constructor | reflexivity].
  - assert (Hagain : no_positive_integer line ->
              match io_value (after [message;
                        "Invalid integer. Please enter a positive integer."%string]
                        (prompt_int message rest)) with
              | Got value =>
                  0 < value /\
                  exists rejected line',
                    line :: rest = rejected ++ line' ::
                      io_unread (after [message;
                        "Invalid integer. Please enter a positive integer."%string]
                        (prompt_int message rest)) /\
                    int_of_str line' = Some value /\
                    Forall no_positive_integer rejected /\
                    io_printed (after [message;
                        "Invalid integer. Please enter a positive integer."%string]
                        (prompt_int message rest)) =
                      complaints message
                        "Invalid integer. Please enter a positive integer."
                        rejected ++ [message]
              | Stopped EOFError =>
                  Forall no_positive_integer (line :: rest) /\
                  io_unread (after [message;
                        "Invalid integer. Please enter a positive integer."%string]
                        (prompt_int message rest)) = []
              | Stopped _ => False
              end).
    { intros Hline. cbn [after io_value io_unread io_printed].
      destruct (io_value (prompt_int message rest)) as [value | [| e |]];
        try contradiction.
      - destruct IH as (Hpos & rejected & line' & Hrest & Hint & Hrej & Hout).
        split; [exact Hpos |]. exists (line :: rejected), line'.
        split; [cbn; congruence |]. split; [exact Hint |].
        split; [constructor; assumption |]. rewrite Hout. reflexivity.
      - destruct IH as [Hall Hnil]. split; [constructor; assumption | exact Hnil]. }
    destruct (int_of_str line) as [value |] eqn:Hint.
    + destruct (value <=? 0) eqn:Hle.
      * apply Hagain. intros v Hv. rewrite Hint in Hv. injection Hv as <-.
        apply Z.leb_le. exact Hle.
      * cbn. apply Z.leb_gt in Hle. split; [exact Hle |].
        exists [], line. repeat split; auto.
    + apply Hagain. intros v Hv. rewrite Hint in Hv. discriminate.
Qed.

(** X18.  [prompt_int] returns only positive integers: the value it
    returns is [int(line)] for the first input line that [int] accepts
    with a positive value; every line before it was rejected with the same
    message, and the lines after it are left unread.  It fails only when
    the input ends, and then every line was rejected. *)
Theorem prompt_int_returns_first_positive (message : string) (lines : list string) :
  match io_value (prompt_int message lines) with
  | Got value =>
      0 < value /\
      exists rejected line,
        lines = rejected ++ line :: io_unread (prompt_int message lines) /\
        int_of_str line = Some value /\
        Forall no_positive_integer rejected /\
        io_printed (prompt_int message lines) =
          complaints message "Invalid integer. Please enter a positive integer."
            rejected ++ [message]
  | Stopped EOFError =>
      Forall no_positive_integer lines /\
      io_unread (prompt_int message lines) = []
  | Stopped _ => False
  end.
Proof. apply prompt_int_spec. Qed.


Lemma reads_after {A} printed (s : io_state A) n :
  (length (io_unread s) <= n)%nat -> (length (io_unread (after printed s)) <= n)%nat.
Proof. intros Hs. exact Hs. Qed.









(** *** The menu *)







(** *** A whole run *)











End CommandLine.

Arguments Got {F A} a.
Arguments Stopped {F A} why.
Arguments EOFError {F}.
Arguments Uncaught {F} e.
Arguments NotInterpreted {F}.

(* ================================================================= *)
(** * The callers: app.py *)

Section Web.
Context {F : Type} `{PyFloat F} `{PyMath F} `{PyText F}.

Definition METHOD_OPTIONS : gmap string string :=
  list_to_map
    [ ("bisection", "Bisection Method");
      ("regula_falsi", "Regula Falsi Method");
      ("secant", "Secant Method");
      ("newton_raphson", "Newton-Raphson Method");
      ("fixed_point", "Fixed Point Iteration");
      ("modified_secant", "Modified Secant Method") ]%string.

(** What the view reads of a request: its method and its form. *)
Record request : Type := {
  request_method : string;
  request_form : gmap string string
}.

(** [request.form.get(field, default)]. *)
Definition form_get (form : gmap string string) (field default : string) : string :=
  match form !! field with
  | Some value => value
  | None => default
  end.

Definition parse_float (form : gmap string string) (field label : string)
    (required : bool) : result F (option F) :=
  let value := strip (form_get form field EmptyString) in
  if String.eqb value EmptyString then
    if required then Raise (ValueError (String.append label " is required."))
    else Ok None
  else
    match float_of_str value with
    | Some x => Ok (Some x)
    | None => Raise (ValueError (String.append label " must be a valid number."))
    end.

(** The context handed to [render_template], with the messages flashed
    before. *)
Record page : Type := {
  flashed : list (string * string);
  form_values : gmap string string;
  page_result : option (MethodResult F);
  selected_method : option string
}.

(** [OverflowError] is raised by [int(x)] for an infinite [x]. *)
Inductive web_exn : Type :=
| OverflowError
| Unhandled (e : exn F).

Inductive response : Type :=
| Rendered (p : page)
| InternalServerError (e : web_exn)
| ResponseNotInterpreted.

(** A [float | None] handed on where a float is used.  [None] is outside
    this model; every call of [parse_float] leaves [required] at [True],
    so it does not occur. *)
Definition passed (v : option F) : result F F :=
  match v with
  | Some x => Ok x
  | None => Unmodelled
  end.

(** The first [try] block of [index]: the tolerance and the iteration
    cap.  [Ok] holds what the block leaves in [tolerance] and
    [max_iterations]; [inr] is the [OverflowError] of [int]. *)
Definition read_limits (form : gmap string string)
  : result F (option F * Z) + unit :=
  match parse_float form "tolerance" "Tolerance" true with
  | Raise e => inl (Raise e)
  | Unmodelled => inl Unmodelled
  | Ok tolerance =>
      match parse_float form "max_iterations" "Maximum Iterations" true with
      | Raise e => inl (Raise e)
      | Unmodelled => inl Unmodelled
      | Ok None => inl Unmodelled
      | Ok (Some x) =>
          match int_of_float x with
          | Infinite => inr tt
          | NotANumber =>
              inl (Raise (ValueError "cannot convert float NaN to integer"))
          | Truncated max_iterations =>
              if max_iterations <=? 0 then
                inl (Raise (ValueError "Maximum iterations must be positive."))
              else inl (Ok (tolerance, max_iterations))
          end
      end
  end.

(** The second [try] block, up to the call of the solver. *)
Definition web_request (form : gmap string string) (method_key : string)
    (tolerance : option F) (max_iterations : Z) : result F (solve_call F) :=
  if String.eqb method_key "bisection" || String.eqb method_key "regula_falsi" then
    func <~ parse_function (form_get form "equation" EmptyString) ;;
    lower <~ parse_float form "lower_bound" "Lower bound a" true ;;
    upper <~ parse_float form "upper_bound" "Upper bound b" true ;;
    a <~ passed lower ;; b <~ passed upper ;; tol <~ passed tolerance ;;
    if String.eqb method_key "bisection" then
      Ok (Bisection func a b tol max_iterations)
    else
      Ok (RegulaFalsi func a b tol max_iterations)
  else if String.eqb method_key "secant" then
    func <~ parse_function (form_get form "equation" EmptyString) ;;
    x0 <~ parse_float form "x0" "First guess x0" true ;;
    x1 <~ parse_float form "x1" "Second guess x1" true ;;
    a <~ passed x0 ;; b <~ passed x1 ;; tol <~ passed tolerance ;;
    Ok (Secant func a b tol max_iterations)
  else if String.eqb method_key "newton_raphson" then
    func <~ parse_function (form_get form "equation" EmptyString) ;;
    derivative <~ parse_function (form_get form "derivative" EmptyString) ;;
    x0 <~ parse_float form "x0" "Initial guess x0" true ;;
    a <~ passed x0 ;; tol <~ passed tolerance ;;
    Ok (NewtonRaphson func derivative a tol max_iterations)
  else if String.eqb method_key "fixed_point" then
    g_func <~ parse_function (form_get form "g_equation" EmptyString) ;;
    x0 <~ parse_float form "x0" "Initial guess x0" true ;;
    a <~ passed x0 ;; tol <~ passed tolerance ;;
    Ok (FixedPoint g_func a tol max_iterations)
  else if String.eqb method_key "modified_secant" then
    func <~ parse_function (form_get form "equation" EmptyString) ;;
    x0 <~ parse_float form "x0" "Initial guess x0" true ;;
    delta <~ parse_float form "delta" "Delta parameter" true ;;
    a <~ passed x0 ;; d <~ passed delta ;; tol <~ passed tolerance ;;
    Ok (ModifiedSecant func a d tol max_iterations)
  else
    Raise (ValueError "Unsupported method selected.").

(** [except ValueError as exc: flash(str(exc), "error")] and the page
    rendered after it; any other exception leaves the view. *)
Definition flash_error (form : gmap string string) (e : exn F) : response :=
  if is_value_error e then
    Rendered {| flashed := [(str_of_exn e, "error"%string)];
                form_values := form; page_result := None;
                selected_method := None |}
  else InternalServerError (Unhandled e).

Definition index (req : request) : response :=
  if negb (String.eqb (request_method req) "POST") then
    Rendered {| flashed := []; form_values := ∅; page_result := None;
                selected_method := None |}
  else
    let form := request_form req in
    let method_key := strip (form_get form "method" EmptyString) in
    match METHOD_OPTIONS !! method_key with
    | None =>
        Rendered {| flashed := [("Please select a numerical method.", "error")]%string;
                    form_values := form; page_result := None;
                    selected_method := None |}
    | Some _ =>
        match read_limits form with
        | inr _ => InternalServerError OverflowError
        | inl Unmodelled => ResponseNotInterpreted
        | inl (Raise e) => flash_error form e
        | inl (Ok (tolerance, max_iterations)) =>
            match c <~ web_request form method_key tolerance max_iterations ;;
                  outcome (solve c) with
            | Unmodelled => ResponseNotInterpreted
            | Raise e => flash_error form e
            | Ok result =>
                Rendered {| flashed := []; form_values := form;
                            page_result := Some result;
                            selected_method := Some method_key |}
            end
        end
    end.

(* ----------------------------------------------------------------- *)
(** *** Properties *)

Lemma parse_float_blank form field label required :
  blank (form_get form field EmptyString) ->
  parse_float form field label required =
    if required then Raise (ValueError (String.append label " is required."))
    else Ok None.
Proof.
  intros Hb. unfold parse_float. rewrite (strip_blank Hb). reflexivity.
Qed.

(** X22.  A field that is missing from the form, or holds white space
    only, makes [parse_float] raise "<label> is required." when the field
    is required, and return [None] when it is not; [float] is not
    called. *)
Theorem missing_or_blank_field_is_required (form : gmap string string)
    (field label : string) (required : bool) :
  form !! field = None \/ (exists value, form !! field = Some value /\ blank value) ->
  parse_float form field label required =
    if required then Raise (ValueError (String.append label " is required."))
    else Ok None.
Proof.
  intros Hfield. apply parse_float_blank. unfold form_get.
  destruct Hfield as [-> | (value & -> & Hb)]; [reflexivity | exact Hb].
Qed.

Lemma parse_float_required form field label :
  match parse_float form field label true with
  | Ok v => exists x, v = Some x
  | Raise e => is_value_error e = true
  | Unmodelled => False
  end.
Proof.
  unfold parse_float. destruct (String.eqb _ _); [reflexivity |].
  destruct (float_of_str _); [eauto | reflexivity].
Qed.

Lemma read_limits_spec form :
  match read_limits form with
  | inl (Ok (tolerance, max_iterations)) =>
      0 < max_iterations /\ exists tol, tolerance = Some tol
  | inl (Raise e) => is_value_error e = true
  | _ => True
  end.
Proof.
  unfold read_limits.
  pose proof (parse_float_required form "tolerance" "Tolerance") as Ht.
  destruct (parse_float form "tolerance" "Tolerance" true) as [tolerance | e |];
    [| exact Ht | exact I].
  pose proof (parse_float_required form "max_iterations" "Maximum Iterations") as Hm.
  destruct (parse_float form "max_iterations" "Maximum Iterations" true)
    as [[x |] | e |]; [| exact I | exact Hm | exact I].
  destruct (int_of_float x) as [n | |]; [| reflexivity | exact I].
  destruct (n <=? 0) eqn:Hn; [reflexivity |].
  apply Z.leb_gt in Hn. split; [exact Hn | exact Ht].
Qed.

Lemma method_options_keys method_key label :
  METHOD_OPTIONS !! method_key = Some label -> In method_key method_names.
Proof.
  unfold METHOD_OPTIONS. intros Hm. apply elem_of_list_to_map_2 in Hm.
  rewrite list_elem_of_In in Hm. cbn in Hm.
  repeat destruct Hm as [[= <- <-] | Hm]; cbn; tauto.
Qed.

Lemma parse_function_caught (expression : string) :
  match parse_function (F := F) expression with
  | Ok f => parsed_function f
  | Raise e => is_value_error e = true
  | Unmodelled => True
  end.
Proof.
  destruct (parse_function expression) as [f | e |] eqn:Hp; [| | exact I].
  - exists expression. exact Hp.
  - destruct (parse_function_raises _ Hp) as [-> | ->]; reflexivity.
Qed.

Ltac web_steps :=
  repeat match goal with
         | |- context [rbind (parse_function ?s) _] =>
             let Hp := fresh "Hp" in
             pose proof (parse_function_caught s) as Hp;
             destruct (parse_function s); cbn [rbind]; [| exact Hp | exact I]
         | |- context [rbind (parse_float ?form ?field ?label true) _] =>
             let Hp := fresh "Hq" in
             pose proof (parse_float_required form field label) as Hp;
             destruct (parse_float form field label true); cbn [rbind];
             [destruct Hp as [? ->] | exact Hp | contradiction]
         | |- context [rbind (passed ?v) _] =>
             destruct v; cbn [rbind passed]; [| exact I]
         end.

Lemma web_request_spec form method_key tolerance max_iterations :
  In method_key method_names ->
  match web_request form method_key tolerance max_iterations with
  | Ok c => requested method_key max_iterations c
  | Raise e => is_value_error e = true
  | Unmodelled => True
  end.
Proof.
  intros Hin. cbn in Hin.
  repeat destruct Hin as [<- | Hin]; try contradiction;
    unfold web_request; cbn [String.eqb Ascii.eqb Bool.eqb orb andb];
    web_steps; repeat split; repeat constructor; assumption.
Qed.

Lemma index_spec (req : request) :
  request_method req = "POST"%string ->
  match index req with
  | Rendered p =>
      (page_result p = None /\ selected_method p = None /\
       exists message, flashed p = [(message, "error"%string)]) \/
      (exists r c,
         page_result p = Some r /\ flashed p = [] /\
         selected_method p = Some (method_name c) /\
         outcome (solve c) = Ok r /\ 1 <= max_iter_of c /\
         Forall parsed_function (callables c))
  | InternalServerError e =>
      e = OverflowError \/
      exists e', e = Unhandled e' /\ (conversion_error e' \/ e' = ZeroDivisionError)
  | ResponseNotInterpreted => True
  end.
Proof.
  intros Hpost. unfold index. rewrite Hpost. cbn [String.eqb Ascii.eqb Bool.eqb negb andb].
  destruct (METHOD_OPTIONS !! _) as [label |] eqn:Hkey; [| left; cbn; eauto].
  apply method_options_keys in Hkey.
  pose proof (read_limits_spec (request_form req)) as Hl.
  destruct (read_limits (request_form req)) as [[[tolerance n] | e |] | []];
    [| | exact I | left; reflexivity].
  - destruct Hl as [Hn _].
    pose proof (web_request_spec (request_form req) tolerance n Hkey) as Hr.
    destruct (web_request _ _ tolerance n) as [c | e |]; cbn [rbind];
      [| unfold flash_error; rewrite Hr; left; cbn; eauto | exact I].
    destruct Hr as (Hname & Hmax & Hp).
    destruct (outcome (solve c)) as [r | e |] eqn:Hout; [| | exact I].
    + right. exists r, c. cbn. rewrite Hname. repeat split; auto. lia.
    + destruct (@solve_failures F _ _ c e ltac:(lia) Hp Hout) as [Hv | Hleaves];
        unfold flash_error.
      * rewrite Hv. left. cbn. eauto.
      * destruct (is_value_error e); [left; cbn; eauto | right].
        exists e. split; [reflexivity |]. destruct Hleaves as [Hc | [-> _]]; auto.
  - unfold flash_error. rewrite Hl. left. cbn. eauto.
Qed.

(** X23.  A page that [index] renders for a POST request either carries
    exactly one flashed error message and no result, or no message and a
    result; and a result shown was returned by the solver of the selected
    method, called with [max_iter >= 1] and with Functions made by
    [parse_function]. *)
Theorem rendered_page_has_a_result_or_one_error (req : request) (p : page) :
  request_method req = "POST"%string ->
  index req = Rendered p ->
  (page_result p = None /\ selected_method p = None /\
   exists message, flashed p = [(message, "error"%string)]) \/
  (exists r c,
     page_result p = Some r /\ flashed p = [] /\
     selected_method p = Some (method_name c) /\
     outcome (solve c) = Ok r /\ 1 <= max_iter_of c /\
     Forall parsed_function (callables c)).
Proof.
  intros Hpost Hp. pose proof (index_spec req Hpost) as Hs. rewrite Hp in Hs. exact Hs.
Qed.


End Web.

Arguments OverflowError {F}.
Arguments Unhandled {F} e.
Arguments Rendered {F} p.
Arguments InternalServerError {F} e.
Arguments ResponseNotInterpreted {F}.

(* ================================================================= *)
(** * The iteration cap of a run that converged *)

Section Cap.
Context {F : Type} `{PyFloat F}.

(** The same call with another [max_iter]. *)
Definition with_max_iter (max_iter : Z) (c : solve_call F) : solve_call F :=
  match c with
  | Bisection func a b tol _ => Bisection func a b tol max_iter
  | RegulaFalsi func a b tol _ => RegulaFalsi func a b tol max_iter
  | Secant func x0 x1 tol _ => Secant func x0 x1 tol max_iter
  | NewtonRaphson func derivative x0 tol _ =>
      NewtonRaphson func derivative x0 tol max_iter
  | FixedPoint g_func x0 tol _ => FixedPoint g_func x0 tol max_iter
  | ModifiedSecant func x0 delta tol _ => ModifiedSecant func x0 delta tol max_iter
  end.

(** A loop that returned from inside does the same with more iterations
    allowed. *)
Lemma for_range_more {St R} (body : Z -> St -> M F (control St R)) (n : nat) :
  forall (m : nat) i s r,
    outcome (for_range body n i s) = Ok (Return r) -> (n <= m)%nat ->
    for_range body m i s = for_range body n i s.
Proof.
  induction n as [| n IH]; intros m i s r Hout Hle; [discriminate |].
  destruct m as [| m]; [lia |]. cbn [for_range] in *.
  rewrite outcome_bind in Hout. unfold bind.
  destruct (body i s) as [log [[s' | r'] | e |]]; cbn in Hout |- *; try reflexivity.
  rewrite (IH m (i + 1) s' r Hout ltac:(lia)). reflexivity.
Qed.

Lemma loop_cap {St} (body : Z -> St -> M F (control St (MethodResult F)))
    (fin fin' : control St (MethodResult F) -> M F (MethodResult F))
    (n m : Z) s0 r :
  (forall r', fin (Return r') = ret r') ->
  (forall r', fin' (Return r') = ret r') ->
  (forall st r', outcome (fin (Continue st)) = Ok r' -> iterations_used r' = n) ->
  (out <~ outcome (for_range body (Z.to_nat n) 1 s0) ;; outcome (fin out)) = Ok r ->
  iterations_used r < n -> n <= m ->
  (out <- for_range body (Z.to_nat m) 1 s0 ;; fin' out) =
  (out <- for_range body (Z.to_nat n) 1 s0 ;; fin out).
Proof.
  intros Hret Hret' Hfin Hr Hlt Hle.
  destruct (outcome (for_range body (Z.to_nat n) 1 s0)) as [[st | r'] | e |] eqn:Hout;
    cbn [rbind] in Hr; try discriminate.
  - apply Hfin in Hr. lia.
  - rewrite (@for_range_more _ _ body (Z.to_nat n) (Z.to_nat m) 1 s0 r' Hout ltac:(lia)).
    unfold outcome in Hout. unfold bind.
    destruct (for_range body (Z.to_nat n) 1 s0) as [log o]. cbn in Hout. subst o.
    rewrite Hret, Hret'. reflexivity.
Qed.

Lemma bind_cap {A B} (m0 : M F A) (k k' : A -> M F B) (r : B) :
  outcome (x <- m0 ;; k x) = Ok r ->
  (forall a, outcome (k a) = Ok r -> k' a = k a) ->
  (x <- m0 ;; k' x) = (x <- m0 ;; k x).
Proof.
  rewrite outcome_bind. unfold bind, outcome.
  destruct m0 as [log [a | e |]]; cbn; try discriminate.
  intros Hr Hk. rewrite (Hk a Hr). reflexivity.
Qed.

Ltac cap_tac :=
  intros ? ?; mrun; try discriminate; intros [= <-]; reflexivity.

Ltac cap_loop Hr :=
  rewrite outcome_bind in Hr;
  eapply loop_cap; try eassumption; try reflexivity.

Lemma solve_cap (c : solve_call F) (r : MethodResult F) (m : Z) :
  outcome (solve c) = Ok r -> iterations_used r < max_iter_of c ->
  max_iter_of c <= m ->
  solve (with_max_iter m c) = solve c.
Proof.
  destruct c as [f a b tol n | f a b tol n | f x0 x1 tol n | f f' x0 tol n
                | g x0 tol n | f x0 delta tol n];
    cbn [solve with_max_iter max_iter_of]; intros Hr Hlt Hle.
  - unfold bisection in *.
    eapply bind_cap; [exact Hr | intros fa Hr1].
    eapply bind_cap; [exact Hr1 | intros fb Hr2].
    destruct (fge _ _); [reflexivity |]. cap_loop Hr2. cap_tac.
  - unfold regula_falsi in *.
    eapply bind_cap; [exact Hr | intros fa Hr1].
    eapply bind_cap; [exact Hr1 | intros fb Hr2].
    destruct (fge _ _); [reflexivity |]. cap_loop Hr2. cap_tac.
  - unfold secant in *. cap_loop Hr. cap_tac.
  - unfold newton_raphson in *. cap_loop Hr. unfold finish_current. cap_tac.
  - unfold fixed_point in *. cap_loop Hr. unfold finish_current. cap_tac.
  - unfold modified_secant in *. destruct (feq delta _); [reflexivity |].
    cap_loop Hr. unfold finish_current. cap_tac.
Qed.

(** X25.  A run that stopped before its iteration cap does not depend on
    the cap: with any larger [max_iter] the same call makes the same calls
    of the user's functions and returns the same result. *)
Theorem converged_run_ignores_larger_cap (c : solve_call F) (r : MethodResult F)
    (max_iter : Z) :
  outcome (solve c) = Ok r ->
  iterations_used r < max_iter_of c ->
  max_iter_of c <= max_iter ->
  calls (solve (with_max_iter max_iter c)) = calls (solve c) /\
  outcome (solve (with_max_iter max_iter c)) = Ok r.
Proof.
  intros Hr Hlt Hle. rewrite (@solve_cap c r max_iter Hr Hlt Hle). auto.
Qed.

End Cap.

(* ================================================================= *)
(** * More runs over the rationals *)

Section MoreRuns.

(** The derivative of [x^2 - 2]. *)
Definition two_x (x : Q) : Q := (2 * x)%Q.

(** [f(x) = 0 * x]: every derivative value is zero. *)
Definition flat (x : Q) : Q := (0 * x)%Q.

(** The second record of three secant steps on [x^2 - 2] from [(1, 2)]. *)
Lemma records_are_numbered_in_order_witness :
  exists r rec,
    outcome (solve (Secant (total square_minus_two) 1%Q 2%Q (1 # 100)%Q 3)) = Ok r /\
    iterations r !! 1%nat = Some rec /\
    it_iteration rec = 2.
Proof.
  eexists. eexists. split; [vm_compute; reflexivity |].
  split; [vm_compute; reflexivity |].
  eapply records_are_numbered_in_order
    with (c := Secant (total square_minus_two) 1%Q 2%Q (1 # 100)%Q 3) (k := 1%nat);
    vm_compute; reflexivity.
Defined.

(** Regula falsi on [x^2 - 2] over [[0, 2]], stopped by the cap. *)
Lemma result_summarises_last_record_witness :
  exists r,
    outcome (solve (RegulaFalsi (total square_minus_two) 0%Q 2%Q (1 # 100)%Q 2)) = Ok r /\
    exists rec, last (iterations r) = Some rec /\
                root r = it_xn rec /\ error r = it_error rec.
Proof.
  eexists. split; [vm_compute; reflexivity |].
  apply (@result_summarises_last_record Q _
           (RegulaFalsi (total square_minus_two) 0%Q 2%Q (1 # 100)%Q 2)).
  vm_compute. reflexivity.
Defined.

(** Newton-Raphson on [x^2 - 2] from [1]: 3/2, then 17/12, whose residual
    [1/144] is below [1/100]. *)
Lemma stops_at_first_converged_record_witness :
  exists r,
    outcome (solve (NewtonRaphson (total square_minus_two) (total two_x)
                      1%Q (1 # 100)%Q 9)) = Ok r /\
    Forall (fun rec => stop_test (NewtonRaphson (total square_minus_two) (total two_x)
                                    1%Q (1 # 100)%Q 9) rec = false)
           (removelast (iterations r)) /\
    (iterations_used r < 9 ->
     exists rec, last (iterations r) = Some rec /\
                 stop_test (NewtonRaphson (total square_minus_two) (total two_x)
                              1%Q (1 # 100)%Q 9) rec = true).
Proof.
  eexists. split; [vm_compute; reflexivity |].
  apply (@stops_at_first_converged_record Q _
           (NewtonRaphson (total square_minus_two) (total two_x) 1%Q (1 # 100)%Q 9)).
  vm_compute. reflexivity.
Defined.

Lemma newton_raphson_follows_tangents_witness :
  exists r,
    outcome (newton_raphson (total square_minus_two) (total two_x)
               1%Q (1 # 100)%Q 9) = Ok r /\
    chain (newton_rule (total square_minus_two) (total two_x)) 1%Q (iterations r).
Proof.
  eexists. split; [vm_compute; reflexivity |].
  apply (@newton_raphson_follows_tangents Q _ (total square_minus_two) (total two_x)
           1%Q (1 # 100)%Q 9).
  vm_compute. reflexivity.
Defined.

Lemma secant_follows_chords_witness :
  exists r,
    outcome (secant (total square_minus_two) 1%Q 2%Q (1 # 100)%Q 3) = Ok r /\
    chain (secant_rule (total square_minus_two)) (1%Q, 2%Q) (iterations r).
Proof.
  eexists. split; [vm_compute; reflexivity |].
  apply (@secant_follows_chords Q _ (total square_minus_two) 1%Q 2%Q (1 # 100)%Q 3).
  vm_compute. reflexivity.
Defined.

Lemma modified_secant_follows_quotients_witness :
  exists r,
    outcome (modified_secant (total square_minus_two) 1%Q (1 # 10)%Q (1 # 100)%Q 3)
      = Ok r /\
    feq (1 # 10)%Q (of_int 0) = false /\
    chain (modified_secant_rule (total square_minus_two) (1 # 10)%Q) 1%Q (iterations r).
Proof.
  eexists. split; [vm_compute; reflexivity |].
  apply (@modified_secant_follows_quotients Q _ (total square_minus_two)
           1%Q (1 # 10)%Q (1 # 100)%Q 3).
  vm_compute. reflexivity.
Defined.

Lemma bisection_halves_the_bracket_witness :
  exists r,
    outcome (bisection (total square_minus_two) 0%Q 2%Q (1 # 8)%Q 3) = Ok r /\
    exists fa fb,
      total square_minus_two 0%Q = Ok fa /\ total square_minus_two 2%Q = Ok fb /\
      fge (fmul fa fb) (of_int 0) = false /\
      chain (bisection_rule (total square_minus_two)) (0%Q, 2%Q, fa) (iterations r).
Proof.
  eexists. split; [vm_compute; reflexivity |].
  apply (@bisection_halves_the_bracket Q _ (total square_minus_two)
           0%Q 2%Q (1 # 8)%Q 3).
  vm_compute. reflexivity.
Defined.

Lemma regula_falsi_follows_chords_witness :
  exists r,
    outcome (regula_falsi (total square_minus_two) 0%Q 2%Q (1 # 8)%Q 3) = Ok r /\
    exists fa fb,
      total square_minus_two 0%Q = Ok fa /\ total square_minus_two 2%Q = Ok fb /\
      fge (fmul fa fb) (of_int 0) = false /\
      chain (regula_falsi_rule (total square_minus_two)) (0%Q, 2%Q, fa, fb)
        (iterations r).
Proof.
  eexists. split; [vm_compute; reflexivity |].
  apply (@regula_falsi_follows_chords Q _ (total square_minus_two)
           0%Q 2%Q (1 # 8)%Q 3).
  vm_compute. reflexivity.
Defined.

(** Newton-Raphson with a derivative that is zero everywhere raises its own
    [ValueError]. *)
Lemma solvers_raise_only_their_own_errors_witness :
  In (ValueError "Derivative is zero; Newton-Raphson cannot proceed.")
     (own_errors (NewtonRaphson (total square_minus_two) (total flat)
                    1%Q (1 # 100)%Q 9)) \/
  exists g x,
    In g (callables (NewtonRaphson (total square_minus_two) (total flat)
                       1%Q (1 # 100)%Q 9)) /\
    In (g, x) (calls (solve (NewtonRaphson (total square_minus_two) (total flat)
                               1%Q (1 # 100)%Q 9))) /\
    g x = Raise (ValueError "Derivative is zero; Newton-Raphson cannot proceed.").
Proof.
  apply (@solvers_raise_only_their_own_errors Q _
           (NewtonRaphson (total square_minus_two) (total flat) 1%Q (1 # 100)%Q 9)).
  - simpl. lia.
  - vm_compute. reflexivity.
Defined.

(** Two Newton-Raphson steps on [x^2 - 2], the second stopped by the
    residual test: eight calls. *)
Lemma evaluations_grow_with_records_witness :
  exists r,
    outcome (solve (NewtonRaphson (total square_minus_two) (total two_x)
                      1%Q (1 # 100)%Q 9)) = Ok r /\
    (least_calls (NewtonRaphson (total square_minus_two) (total two_x)
                    1%Q (1 # 100)%Q 9) (length (iterations r))
     <= length (calls (solve (NewtonRaphson (total square_minus_two) (total two_x)
                                1%Q (1 # 100)%Q 9)))
     <= most_calls (NewtonRaphson (total square_minus_two) (total two_x)
                      1%Q (1 # 100)%Q 9) (length (iterations r)))%nat.
Proof.
  eexists. split; [vm_compute; reflexivity |].
  apply (@evaluations_grow_with_records Q _
           (NewtonRaphson (total square_minus_two) (total two_x) 1%Q (1 # 100)%Q 9)).
  vm_compute. reflexivity.
Defined.

End MoreRuns.

Section ParseFunctionRuns.

(** Three spaces. *)
Lemma blank_expression_is_rejected_witness :
  parse_function (F := Q) "   " = Raise (FunctionParserError ExpressionEmpty).
Proof.
  apply (@blank_expression_is_rejected Q _ _ "   ").
  vm_compute. reflexivity.
Defined.

(** [x.real] between two spaces and a tab. *)
Lemma surrounding_whitespace_is_ignored_witness :
  parse_function (F := Q)
    (String.append "  " (String.append "x.real" (String "009" EmptyString))) =
  parse_function "x.real".
Proof.
  apply (@surrounding_whitespace_is_ignored Q _ _ "  " "x.real"
           (String "009" EmptyString));
    vm_compute; reflexivity.
Defined.

(** [log(x)] at [-1]: the math-domain error is wrapped with [x]. *)
Lemma function_raises_three_errors_witness :
  (exists cause,
     FunctionParserError (ErrorEvaluatingAt (-1)%Q (ValueError "math domain error")) =
     FunctionParserError (ErrorEvaluatingAt (-1)%Q cause)) \/
  FunctionParserError (ErrorEvaluatingAt (-1)%Q (ValueError "math domain error")) =
    FunctionParserError (F := Q) ComplexResult \/
  conversion_error
    (FunctionParserError
       (ErrorEvaluatingAt (-1)%Q (ValueError (F := Q) "math domain error"))).
Proof.
  apply (@function_raises_three_errors Q _ _ "log(x)"
           (func log_of_x allowed_names) (-1)%Q);
    vm_compute; reflexivity.
Defined.

End ParseFunctionRuns.

(* ================================================================= *)
(** * Runs of the front ends over the rationals *)

Section FrontEndRuns.

(** Conversions for the runs below: [float] and [int] of a plain decimal
    numeral with an optional sign, truncation towards zero, and the
    message of a [ValueError]. *)
Definition signed_numeral (s : string) : option (bool * constant) :=
  let l := list_ascii_of_string (strip s) in
  let '(negative, digits) :=
    match l with
    | c :: r => if in_range 45 45 c then (true, r)
                else if in_range 43 43 c then (false, r) else (false, l)
    | [] => (false, l)
    end in
  match lex_number digits with
  | Some (c, []) => Some (negative, c)
  | _ => None
  end.

Definition Q_float_of_str (s : string) : option Q :=
  match signed_numeral s with
  | Some (negative, CInt n) =>
      Some (if negative then - inject_Z n else inject_Z n)%Q
  | Some (negative, CFloat m e) =>
      Some (if negative then - Q_of_decimal m e else Q_of_decimal m e)%Q
  | _ => None
  end.

Definition Q_int_of_str (s : string) : option Z :=
  match signed_numeral s with
  | Some (negative, CInt n) => Some (if negative then - n else n)
  | _ => None
  end.

Definition Q_str_of_exn (e : exn Q) : string :=
  match e with
  | ValueError msg => msg
  | FunctionParserError ExpressionEmpty => "Expression cannot be empty."
  | _ => "(another exception)"
  end.

#[export] Instance Q_PyText : PyText Q := {|
  float_of_str := Q_float_of_str;
  int_of_str := Q_int_of_str;
  int_of_float := fun x => Truncated (Z.quot (Qnum x) (Zpos (Qden x)));
  str_of_exn := Q_str_of_exn
|}.


(** Fixed-point iteration of [log(x)] from [-1]. *)
Lemma solver_failures_are_value_errors_witness :
  is_value_error
    (FunctionParserError
       (ErrorEvaluatingAt (-1)%Q (ValueError (F := Q) "math domain error"))) = true \/
  conversion_error
    (FunctionParserError
       (ErrorEvaluatingAt (-1)%Q (ValueError (F := Q) "math domain error"))) \/
  (FunctionParserError (ErrorEvaluatingAt (-1)%Q (ValueError "math domain error")) =
     ZeroDivisionError /\
   method_name (FixedPoint (func log_of_x allowed_names) (-1)%Q (1 # 8)%Q 3) =
     "regula_falsi"%string).
Proof.
  apply (@solver_failures_are_value_errors Q _ _
           (FixedPoint (func log_of_x allowed_names) (-1)%Q (1 # 8)%Q 3)).
  - simpl. lia.
  - constructor; [| constructor]. exists "log(x)"%string. vm_compute. reflexivity.
  - vm_compute. reflexivity.
Defined.



(** A form for three bisections of [equation] over [[0, 2]]. *)
Definition bisection_form (equation : string) : gmap string string :=
  list_to_map
    [ ("method", "bisection"); ("tolerance", "0.125"); ("max_iterations", "3");
      ("equation", equation); ("lower_bound", "0"); ("upper_bound", " 2 ") ]%string.

(** The field [x0] of an empty form. *)
Lemma missing_or_blank_field_is_required_witness :
  parse_float (F := Q) ∅ "x0" "Initial guess x0" true =
  Raise (ValueError "Initial guess x0 is required.").
Proof.
  apply (@missing_or_blank_field_is_required Q _ ∅ "x0" "Initial guess x0" true).
  left. reflexivity.
Defined.

Lemma rendered_page_has_a_result_or_one_error_witness :
  exists p,
    index {| request_method := "POST"; request_form := bisection_form "x*x - 2" |}
      = Rendered p /\
    ((page_result p = None /\ selected_method p = None /\
      exists message, flashed p = [(message, "error"%string)]) \/
     (exists r c,
        page_result p = Some r /\ flashed p = [] /\
        selected_method p = Some (method_name c) /\
        outcome (solve c) = Ok r /\ 1 <= max_iter_of c /\
        Forall parsed_function (callables c))).
Proof.
  eexists. split; [vm_compute; reflexivity |].
  apply (@rendered_page_has_a_result_or_one_error Q _ _ _
           {| request_method := "POST"; request_form := bisection_form "x*x - 2" |}).
  - reflexivity.
  - vm_compute. reflexivity.
Defined.


End FrontEndRuns.

Section CapRuns.

(** Newton-Raphson on [x^2 - 2] stops at its second iteration: a cap of
    nine and a cap of fifty give the same run. *)
Lemma converged_run_ignores_larger_cap_witness :
  exists r,
    outcome (solve (NewtonRaphson (total square_minus_two) (total two_x)
                      1%Q (1 # 100)%Q 9)) = Ok r /\
    calls (solve (with_max_iter 50
                    (NewtonRaphson (total square_minus_two) (total two_x)
                       1%Q (1 # 100)%Q 9))) =
    calls (solve (NewtonRaphson (total square_minus_two) (total two_x)
                    1%Q (1 # 100)%Q 9)) /\
    outcome (solve (with_max_iter 50
                      (NewtonRaphson (total square_minus_two) (total two_x)
                         1%Q (1 # 100)%Q 9))) = Ok r.
Proof.
  eexists. split; [vm_compute; reflexivity |].
  apply (@converged_run_ignores_larger_cap Q _
           (NewtonRaphson (total square_minus_two) (total two_x) 1%Q (1 # 100)%Q 9)).
  - vm_compute. reflexivity.
  - vm_compute. reflexivity.
  - simpl. lia.
Defined.

End CapRuns.
